(** * Direct-messaging controller: conversations, messages, pagination

    A shallow embedding of [src/controllers/messages.js] and of the part of
    the document store it drives, followed by the properties of the
    conversation life cycle, the pagination engine and the notification
    fan-out.

    Conventions of the embedding:
    - an [async] function is a computation in the monad [M]: it reads and
      writes the durable store ([World]) and either returns a value or
      throws; a write made before a throw stays in the store;
    - an optional field of a [params] object is an [option]: [None] is
      [undefined]; the truthiness tests of the source ([if (x)]) are
      [truthy_string] and [truthy_number], and a pattern match on an
      optional identity;
    - identities are [ObjectId]s, numbers are integers ([Z]);
    - a string is the sequence of the bytes of its UTF-8 encoding, as a
      string literal of this file is;
    - collections are lists of documents in insertion order (the natural
      order [findOne] and an unsorted cursor follow). *)

From Stdlib Require Import Ascii String ZArith.
From stdpp Require Import base decidable option list gmap strings sorting.

(* ===================================================================== *)
(** ** Identities, enums, errors *)
(* ===================================================================== *)

(** A 12-byte store identity, as a number. *)
Definition ObjectId : Type := N.

#[global] Instance ObjectId_eq_dec : EqDecision ObjectId := N.eq_dec.

(** [configs/enums.js] is referenced by the controller; its members are the
    ones destructured at the top of the file. *)
Inductive ConversationStatus := PENDING | ACCEPTED | REJECTED.
Inductive MessageStatus := SENT | READ.
Inductive NotificationType := NEW_MESSAGE.

#[global] Instance ConversationStatus_eq_dec : EqDecision ConversationStatus.
Proof. solve_decision. Defined.
#[global] Instance MessageStatus_eq_dec : EqDecision MessageStatus.
Proof. solve_decision. Defined.

(** What a rejected promise carries. [Error] is the controller's own
    [throw new Error("<message>|||<code>")]; [TypeError] is a property read
    on [null]/[undefined]; [MongoServerError] is the store refusing a
    pipeline stage; [TransportError] is whatever a collaborator rejects
    with. *)
Inductive Exn :=
| Error (message : string)
| TypeError (message : string)
| MongoServerError (message : string)
| TransportError (message : string).

#[global] Instance Exn_eq_dec : EqDecision Exn.
Proof. solve_decision. Defined.

(** The spec's error taxonomy. *)
Inductive ErrorKind := InvalidArgument | NotFound | ConversationBlocked | Unclassified.

#[global] Instance ErrorKind_eq_dec : EqDecision ErrorKind.
Proof. solve_decision. Defined.

(** The text after the last ["|||"] of a message: the status code the HTTP
    layer splits off. *)
Fixpoint statusCode (message : string) : option string :=
  match message with
  | EmptyString => None
  | String c rest =>
      match statusCode rest with
      | Some code => Some code
      | None =>
          match message with
          | String "|"%char (String "|"%char (String "|"%char code)) => Some code
          | _ => None
          end
      end
  end.

(** Modelled from the spec: the taxonomy of section 7 over the controller's
    string-encoded errors. A send refused because the conversation was
    rejected is [ConversationBlocked]; otherwise code 404 is [NotFound] and
    code 400 is [InvalidArgument]. *)
Definition kind (e : Exn) : ErrorKind :=
  match e with
  | Error message =>
      if bool_decide (message = "Conversation request rejected!|||400") then ConversationBlocked
      else if bool_decide (statusCode message = Some "404") then NotFound
      else if bool_decide (statusCode message = Some "400") then InvalidArgument
      else Unclassified
  | _ => Unclassified
  end.

(* ===================================================================== *)
(** ** Documents *)
(* ===================================================================== *)

(** An uploaded file object as the upload middleware hands it over. *)
Record File := mkFile {
  path : option string;
  filename : option string;
  mimetype : option string;
}.

(** A stored attachment sub-document [{ path, type }]. *)
Record Attachment := mkAttachment {
  a_path : option string;
  a_type : option string;
}.

Record Message := mkMessage {
  m_id : ObjectId;
  m_userFrom : option ObjectId;
  m_userTo : option ObjectId;
  m_conversation : option ObjectId;
  m_text : option string;
  m_attachments : option (list Attachment);
  m_status : MessageStatus;
  m_createdAt : Z;
}.

Record Conversation := mkConversation {
  c_id : ObjectId;
  c_userFrom : ObjectId;
  c_userTo : ObjectId;
  c_status : ConversationStatus;
  c_lastMessage : option ObjectId;
}.

Record Fcm := mkFcm { token : string }.

Record User := mkUser {
  u_id : ObjectId;
  u_name : string;
  u_image : option string;
  u_fcms : list Fcm;
}.

#[global] Instance File_eq_dec : EqDecision File.
Proof. solve_decision. Defined.
#[global] Instance Attachment_eq_dec : EqDecision Attachment.
Proof. solve_decision. Defined.
#[global] Instance Message_eq_dec : EqDecision Message.
Proof. solve_decision. Defined.
#[global] Instance Conversation_eq_dec : EqDecision Conversation.
Proof. solve_decision. Defined.

(** In-place field assignments on a loaded conversation document. *)
Definition set_status (s : ConversationStatus) (c : Conversation) : Conversation :=
  mkConversation (c_id c) (c_userFrom c) (c_userTo c) s (c_lastMessage c).
Definition set_lastMessage (m : ObjectId) (c : Conversation) : Conversation :=
  mkConversation (c_id c) (c_userFrom c) (c_userTo c) (c_status c) (Some m).

(** Values a plain JavaScript object handed to the message model can hold. *)
Inductive JsValue :=
| JNull
| JObjectId (o : ObjectId)
| JString (s : string)
| JAttachments (l : list Attachment).

(** A plain object: a finite map from property names to values. A name
    that was never assigned is absent from the map. *)
Abbreviation JsObject := (gmap string JsValue).

(** [Array.prototype.push] on the array held by a property. *)
Definition push (a : Attachment) (v : JsValue) : JsValue :=
  match v with
  | JAttachments l => JAttachments (l ++ [a])
  | _ => v
  end.

(* ===================================================================== *)
(** ** Collaborators *)
(* ===================================================================== *)

Record EmitArgs := mkEmitArgs {
  emit_to : string;
  emit_event : string;
  emit_data : Message;
}.

Record NotificationObj := mkNotificationObj {
  n_user : option ObjectId;
  n_message : ObjectId;
  n_messenger : option ObjectId;
  n_type : NotificationType;
}.

Record NotifyArgs := mkNotifyArgs {
  notify_fcms : list string;
  notify_title : string;
  notify_body : string;
  notify_data_type : NotificationType;
}.

(** A call handed to a collaborator, recorded when it is attempted. *)
Inductive Effect :=
| Emitted (args : EmitArgs)
| NotificationAdded (obj : NotificationObj)
| Notified (args : NotifyArgs).

(** The three transports of the fan-out. Each answers a call with [None]
    (the awaited promise resolves) or with the exception it rejects with. *)
Class Transports := {
  emitEvent : EmitArgs → option Exn;
  addNotification : NotificationObj → option Exn;
  notify : NotifyArgs → option Exn;
}.

(** The store's regular-expression engine, as [$regex] with [$options: "i"]
    uses it: [regex_i pattern subject]. *)
Class RegexEngine := { regex_i : string → string → bool }.

(* ===================================================================== *)
(** ** The store and the monad of asynchronous operations *)
(* ===================================================================== *)

Record World := mkWorld {
  messages : list Message;
  conversations : list Conversation;
  users : list User;
  nextId : ObjectId;
  clock : Z;
  outbox : list Effect;
}.

Inductive Outcome (A : Type) :=
| Returned (a : A)
| Thrown (e : Exn).
Arguments Returned {A} a.
Arguments Thrown {A} e.

Definition M (A : Type) : Type := World → Outcome A * World.

#[global] Instance M_ret : MRet M := λ A a w, (Returned a, w).
#[global] Instance M_bind : MBind M := λ A B f m w,
  match m w with
  | (Returned a, w') => f a w'
  | (Thrown e, w') => (Thrown e, w')
  end.

Definition throw {A} (e : Exn) : M A := λ w, (Thrown e, w).
Definition gets {A} (f : World → A) : M A := λ w, (Returned (f w), w).
Definition modify (f : World → World) : M unit := λ w, (Returned tt, f w).

Definition with_messages (f : list Message → list Message) (w : World) : World :=
  mkWorld (f (messages w)) (conversations w) (users w) (nextId w) (clock w) (outbox w).
Definition with_conversations (f : list Conversation → list Conversation) (w : World) : World :=
  mkWorld (messages w) (f (conversations w)) (users w) (nextId w) (clock w) (outbox w).
Definition with_nextId (f : ObjectId → ObjectId) (w : World) : World :=
  mkWorld (messages w) (conversations w) (users w) (f (nextId w)) (clock w) (outbox w).
Definition with_outbox (f : list Effect → list Effect) (w : World) : World :=
  mkWorld (messages w) (conversations w) (users w) (nextId w) (clock w) (f (outbox w)).

(** Awaiting a collaborator: the call is recorded, then its answer decides
    whether the [await] returns or throws. *)
Definition await (eff : Effect) (answer : option Exn) : M unit :=
  modify (with_outbox (λ o, o ++ [eff])) ;;
  match answer with
  | None => mret tt
  | Some e => throw e
  end.

(* ===================================================================== *)
(** ** Query filters and model operations *)
(* ===================================================================== *)

(** A query document, as the predicate it denotes on the documents of a
    collection: [{}], [{ field: v }], [{ $and: [...] }], [{ $or: [...] }]. *)
Definition Filter (D : Type) : Type := D → bool.

Definition q_all {D} : Filter D := λ _, true.
Definition q_eq {D V} `{EqDecision V} (field : D → V) (v : V) : Filter D :=
  λ d, bool_decide (field d = v).
Definition q_and {D} (qs : list (Filter D)) : Filter D := λ d, forallb (λ q, q d) qs.
Definition q_or {D} (qs : list (Filter D)) : Filter D := λ d, existsb (λ q, q d) qs.

(** [ObjectId.prototype.equals]. *)
Definition equals (a b : ObjectId) : bool := bool_decide (a = b).

(** [conversationsModel.findOne(query)]: the first match in natural order. *)
Definition conversationsModel_findOne (query : Filter Conversation) : M (option Conversation) :=
  gets (λ w, find query (conversations w)).

(** Modelled from the spec: the conversation schema (the model files are
    not part of the controller). A created conversation gets a fresh
    identity, status [PENDING] by default and no last message. *)
Definition conversationsModel_create (userTo userFrom : ObjectId) : M Conversation :=
  λ w,
    let c := mkConversation (nextId w) userFrom userTo PENDING None in
    (Returned c, with_nextId N.succ (with_conversations (λ l, l ++ [c]) w)).

(** [document.save()] on a loaded conversation: the stored document with
    that identity takes the document's current fields. *)
Definition replace_by_id (c : Conversation) (l : list Conversation) : list Conversation :=
  (λ d, if bool_decide (c_id d = c_id c) then c else d) <$> l.

Definition save (c : Conversation) : M unit :=
  modify (with_conversations (replace_by_id c)).

Definition as_ObjectId (v : JsValue) : option ObjectId :=
  match v with JObjectId o => Some o | _ => None end.
Definition as_String (v : JsValue) : option string :=
  match v with JString s => Some s | _ => None end.
Definition as_Attachments (v : JsValue) : option (list Attachment) :=
  match v with JAttachments l => Some l | _ => None end.

(** Modelled from the spec: the message schema. A created message gets a
    fresh identity, the fields present in the object, status [SENT] by
    default and the creation timestamp. *)
Definition messagesModel_create (obj : JsObject) : M Message :=
  λ w,
    let m := mkMessage (nextId w)
               (obj !! "userFrom" ≫= as_ObjectId)
               (obj !! "userTo" ≫= as_ObjectId)
               (obj !! "conversation" ≫= as_ObjectId)
               (obj !! "text" ≫= as_String)
               (obj !! "attachments" ≫= as_Attachments)
               SENT (clock w) in
    (Returned m, with_nextId N.succ (with_messages (λ l, l ++ [m]) w)).

(** [messagesModel.findByIdAndDelete(id)]: removes the document with that
    identity and returns it, or returns [null]. *)
Definition messagesModel_findByIdAndDelete (id : ObjectId) : M (option Message) :=
  λ w,
    match list_find (λ m, m_id m = id) (messages w) with
    | Some (i, m) => (Returned (Some m), with_messages (delete i) w)
    | None => (Returned None, w)
    end.

(** [usersModel.findById(id).select("fcms")]. *)
Definition usersModel_findById (id : option ObjectId) : M (option User) :=
  gets (λ w, find (λ u, bool_decide (Some (u_id u) = id)) (users w)).

(* ===================================================================== *)
(** ** Aggregation stages *)
(* ===================================================================== *)

(** [{ $match: query }]. *)
Definition stage_match {D} (query : Filter D) (docs : list D) : list D :=
  filter (λ d, query d) docs.

(** [{ $sort: { key: -1 } }]: descending on an integer key. *)
Definition desc {D} (key : D → Z) : relation D := λ x y, (key y ≤ key x)%Z.

#[global] Instance desc_dec {D} (key : D → Z) : RelDecision (desc key).
Proof. intros x y. unfold desc. apply _. Defined.

Definition stage_sort_desc {D} (key : D → Z) (docs : list D) : list D :=
  merge_sort (desc key) docs.

(** [$lookup] followed by [$unwind] of the joined field: one output
    document per (document, matching foreign document) pair; a document
    with no match yields none. *)
Definition stage_lookup_unwind {D F R} (from : list F) (on : D → F → bool)
    (as_ : D → F → R) (docs : list D) : list R :=
  d ← docs; as_ d <$> filter (λ f, on d f) from.

(** The output of [$facet: { totalCount: [{ $count }], data: [{ $skip },
    { $limit }] }]. [$count] emits no document on an empty input. *)
Record Facet (A : Type) := mkFacet {
  f_totalCount : list Z;
  f_data : list A;
}.
Arguments mkFacet {A}.
Arguments f_totalCount {A}.
Arguments f_data {A}.

Record Page (A : Type) := mkPage {
  p_totalCount : Z;
  p_totalPages : Z;
  p_data : list A;
}.
Arguments mkPage {A}.
Arguments p_totalCount {A}.
Arguments p_totalPages {A}.
Arguments p_data {A}.

(** [$ceil] of [$divide]. *)
Definition ceil_divide (a b : Z) : Z := (- ((- a) / b))%Z.

(** The store refuses a negative [$skip] and a non-positive [$limit]. *)
Definition stage_facet {A} (skip limit : Z) (docs : list A) : Outcome (Facet A) :=
  if decide (skip < 0)%Z then Thrown (MongoServerError "$skip")
  else if decide (limit ≤ 0)%Z then Thrown (MongoServerError "$limit")
  else Returned
         (mkFacet
            (match docs with [] => [] | _ => [Z.of_nat (length docs)] end)
            (take (Z.to_nat limit) (drop (Z.to_nat skip) docs))).

(** [{ $unwind: "$totalCount" }] then the final [$project]. *)
Definition stage_unwind_project {A} (limit : Z) (f : Facet A) : list (Page A) :=
  (λ n, mkPage n (ceil_divide n limit) (f_data f)) <$> f_totalCount f.

(** The tail shared by both listings: [$facet], [$unwind], [$project]. *)
Definition paginate {A} (page limit : Z) (docs : list A) : Outcome (list (Page A)) :=
  match stage_facet (page * limit) limit docs with
  | Returned f => Returned (stage_unwind_project limit f)
  | Thrown e => Thrown e
  end.

(** The reply objects. *)
Record Reply (A : Type) := mkReply {
  success : bool;
  data : A;
}.
Arguments mkReply {A}.
Arguments success {A}.
Arguments data {A}.

Record Listing (A : Type) := mkListing {
  l_success : bool;
  l_data : list A;
  l_totalCount : Z;
  l_totalPages : Z;
}.
Arguments mkListing {A}.
Arguments l_success {A}.
Arguments l_data {A}.
Arguments l_totalCount {A}.
Arguments l_totalPages {A}.

(** [{ success: true, data: [], totalCount: 0, totalPages: 0, ...rows[0] }]. *)
Definition spread {A} (rows : list (Page A)) : Listing A :=
  match head rows with
  | Some p => mkListing true (p_data p) (p_totalCount p) (p_totalPages p)
  | None => mkListing true [] 0%Z 0%Z
  end.

(** Truthiness of optional values. *)
Definition truthy_string (o : option string) : bool :=
  match o with
  | Some s => negb (bool_decide (s = ""))
  | None => false
  end.
Definition truthy_number (o : option Z) : bool :=
  match o with
  | Some n => negb (bool_decide (n = 0%Z))
  | None => false
  end.
Definition number_or (d : Z) (o : option Z) : Z :=
  if truthy_number o then default d o else d.

(** [ObjectId.prototype.toString]: 24 hexadecimal digits. *)
Definition hex_digit (n : N) : ascii :=
  match n with
  | 0 => "0" | 1 => "1" | 2 => "2" | 3 => "3" | 4 => "4" | 5 => "5"
  | 6 => "6" | 7 => "7" | 8 => "8" | 9 => "9" | 10 => "a" | 11 => "b"
  | 12 => "c" | 13 => "d" | 14 => "e" | _ => "f"
  end%N%char.

Fixpoint hex_digits (width : nat) (n : N) (acc : string) : string :=
  match width with
  | O => acc
  | S width => hex_digits width (n / 16)%N (String (hex_digit (n mod 16)%N) acc)
  end.

Definition toString (o : ObjectId) : string := hex_digits 24 o "".

(** String conversion of a possibly [undefined] value in a concatenation
    or a template literal. *)
Definition string_of_id (o : option ObjectId) : string :=
  match o with Some o => toString o | None => "undefined" end.
Definition string_of (o : option string) : string := default "undefined" o.

(** The UTF-8 encoding of a code point of the Basic Multilingual Plane. *)
Definition utf8 (cp : N) : string :=
  if (cp <? 0x80)%N then String (ascii_of_N cp) ""
  else if (cp <? 0x800)%N then
    String (ascii_of_N (0xC0 + cp / 0x40)) (String (ascii_of_N (0x80 + cp mod 0x40)) "")
  else
    String (ascii_of_N (0xE0 + cp / 0x1000))
      (String (ascii_of_N (0x80 + (cp / 0x40) mod 0x40))
         (String (ascii_of_N (0x80 + cp mod 0x40)) "")).

(** The code points [String.prototype.trim] removes, encoded: the
    WhiteSpace of ECMAScript (TAB, VT, FF, SP, NBSP, ZWNBSP and the space
    separators of Unicode) and its LineTerminator (LF, CR, LS, PS). *)
Definition white_space : list string :=
  utf8 <$>
    [ 0x9; 0xA; 0xB; 0xC; 0xD; 0x20; 0xA0; 0x1680;
      0x2000; 0x2001; 0x2002; 0x2003; 0x2004; 0x2005; 0x2006; 0x2007; 0x2008; 0x2009;
      0x200A; 0x2028; 0x2029; 0x202F; 0x205F; 0x3000; 0xFEFF ]%N.

(** [strip_prefix p s]: [s] without its prefix [p], if it starts with it. *)
Fixpoint strip_prefix (p s : string) : option string :=
  match p, s with
  | EmptyString, _ => Some s
  | String a p, String b s => if bool_decide (a = b) then strip_prefix p s else None
  | String _ _, EmptyString => None
  end.

(** [strip s]: [s] without its first code point, if that is white space. *)
Definition strip (s : string) : option string :=
  head (omap (λ ws, strip_prefix ws s) white_space).

(** [String.prototype.trimStart]; a string of [n] bytes holds at most [n]
    code points. *)
Fixpoint trim_start_fuel (fuel : nat) (s : string) : string :=
  match fuel with
  | O => s
  | S fuel =>
      match strip s with
      | Some rest => trim_start_fuel fuel rest
      | None => s
      end
  end.

Definition trim_start (s : string) : string := trim_start_fuel (String.length s) s.

(** [String.prototype.trimEnd]: the string up to the point from which only
    white space follows. *)
Fixpoint trim_end (s : string) : string :=
  match s with
  | EmptyString => EmptyString
  | String c rest =>
      if bool_decide (trim_start s = "") then "" else String c (trim_end rest)
  end.

(** [String.prototype.trim]. *)
Definition trim (s : string) : string := trim_end (trim_start s).

(* ===================================================================== *)
(** ** The controller *)
(* ===================================================================== *)

Record AddMessageParams := mkAddMessageParams {
  am_userFrom : option ObjectId;
  am_userTo : option ObjectId;
  am_text : option string;
  am_attachments : option (list File);
  am_conversation : option ObjectId;
}.

(** The object [addMessage] builds before handing it to the model. *)
Definition messageObj_of (params : AddMessageParams) : JsObject :=
  let messageObj : JsObject := ∅ in
  let messageObj :=
    match am_userFrom params with
    | Some userFrom => <["userFrom" := JObjectId userFrom]> messageObj
    | None => messageObj
    end in
  let messageObj :=
    match am_userTo params with
    | Some userTo => <["userTo" := JObjectId userTo]> messageObj
    | None => messageObj
    end in
  let messageObj :=
    match am_conversation params with
    | Some conversation => <["conversation" := JObjectId conversation]> messageObj
    | None => messageObj
    end in
  let messageObj :=
    match am_text params with
    | Some text =>
        if truthy_string (Some text) then <["text" := JString text]> messageObj
        else messageObj
    | None => messageObj
    end in
  match am_attachments params with
  | Some attachments =>
      let messageObj := <["attachments" := JAttachments []]> messageObj in
      foldl (λ messageObj attachment,
               if truthy_string (path attachment) then
                 alter (push (mkAttachment (filename attachment) (mimetype attachment)))
                   "attachments" messageObj
               else messageObj)
        messageObj attachments
  | None => messageObj
  end.

Definition addMessage (params : AddMessageParams) : M (Reply Message) :=
  let messageObj := messageObj_of params in
  message ← messagesModel_create messageObj;
  mret (mkReply true message).

(** A message as [getMessages] returns it: [createdAt], [updatedAt] and
    [__v] projected away. *)
Record MessageView := mkMessageView {
  v_id : ObjectId;
  v_userFrom : option ObjectId;
  v_userTo : option ObjectId;
  v_conversation : option ObjectId;
  v_text : option string;
  v_attachments : option (list Attachment);
  v_status : MessageStatus;
}.

Definition project_message (m : Message) : MessageView :=
  mkMessageView (m_id m) (m_userFrom m) (m_userTo m) (m_conversation m)
    (m_text m) (m_attachments m) (m_status m).

Record GetMessagesParams := mkGetMessagesParams {
  gm_conversation : option ObjectId;
  gm_page : option Z;
  gm_limit : option Z;
  gm_user1 : option ObjectId;
  gm_user2 : option ObjectId;
}.

(** Running an aggregation pipeline reads the store and writes nothing. *)
Definition aggregate {R} (pipeline : World → Outcome R) : M R :=
  λ w, (pipeline w, w).

Definition getMessages (params : GetMessagesParams) : M (Listing MessageView) :=
  let conversation := gm_conversation params in
  let limit := number_or 10 (gm_limit params) in
  let page := number_or 0 (gm_page params) in
  let page := if bool_decide (page ≠ 0%Z) then (page - 1)%Z else page in
  query ←
    match conversation with
    | Some conversation => mret (q_eq m_conversation (Some conversation))
    | None =>
        match gm_user1 params, gm_user2 params with
        | Some user1, Some user2 =>
            mret (q_or [ q_and [q_eq m_userTo (Some user1); q_eq m_userFrom (Some user2)];
                         q_and [q_eq m_userFrom (Some user1); q_eq m_userTo (Some user2)] ])
        | _, _ => throw (Error "Please enter conversation id!|||400")
        end
    end;
  messages ← aggregate (λ w,
    paginate page limit
      (project_message <$>
         stage_sort_desc m_createdAt
           (stage_match query (messages w))));
  mret (spread messages).

Record UpdateMessageParams := mkUpdateMessageParams {
  um_message : option ObjectId;
  um_text : option string;
  um_status : option MessageStatus;
}.

Definition set_text (o : option string) (m : Message) : Message :=
  if truthy_string o then
    mkMessage (m_id m) (m_userFrom m) (m_userTo m) (m_conversation m) o
      (m_attachments m) (m_status m) (m_createdAt m)
  else m.
Definition set_message_status (o : option MessageStatus) (m : Message) : Message :=
  match o with
  | Some s =>
      mkMessage (m_id m) (m_userFrom m) (m_userTo m) (m_conversation m) (m_text m)
        (m_attachments m) s (m_createdAt m)
  | None => m
  end.

(** [messagesModel.findByIdAndUpdate(id, update, { new: true })]. *)
Definition messagesModel_findByIdAndUpdate (id : ObjectId) (update : Message → Message)
    : M (option Message) :=
  λ w,
    match list_find (λ m, m_id m = id) (messages w) with
    | Some (i, m) => (Returned (Some (update m)), with_messages (<[i := update m]>) w)
    | None => (Returned None, w)
    end.

(** Identities are typed, so [isValidObjectId] holds of every [message]
    that is supplied. *)
Definition updateMessage (params : UpdateMessageParams) : M (Reply Message) :=
  match um_message params with
  | Some message =>
      messageExists ← messagesModel_findByIdAndUpdate message
                        (λ m, set_message_status (um_status params) (set_text (um_text params) m));
      match messageExists with
      | Some messageExists => mret (mkReply true messageExists)
      | None => throw (Error "Message not found!|||404")
      end
  | None => throw (Error "Please enter message id!|||400")
  end.

Definition deleteMessage (message : option ObjectId) : M (Reply Message) :=
  match message with
  | Some message =>
      messageExists ← messagesModel_findByIdAndDelete message;
      match messageExists with
      | Some messageExists => mret (mkReply true messageExists)
      | None => throw (Error "Please enter valid message id!|||400")
      end
  | None => throw (Error "Please enter message id!|||400")
  end.

(** The projections of [getConversations]. *)
Record LastMessageView := mkLastMessageView {
  lm_id : ObjectId;
  lm_text : option string;
  lm_userFrom : option ObjectId;
  lm_createdAt : Z;
  lm_attachment_types : option (list (option string));
}.

Record UserView := mkUserView {
  uv_id : ObjectId;
  uv_name : string;
  uv_image : option string;
}.

(** A conversation with its last message joined in. *)
Record Joined := mkJoined {
  j_conversation : Conversation;
  j_lastMessage : LastMessageView;
}.

(** After [$project: { user: { $cond ... }, lastMessage: 1 }]. *)
Record Projected := mkProjected {
  pj_id : ObjectId;
  pj_user : ObjectId;
  pj_lastMessage : LastMessageView;
}.

Record ConversationView := mkConversationView {
  cv_id : ObjectId;
  cv_user : UserView;
  cv_lastMessage : LastMessageView;
}.

Definition project_lastMessage (m : Message) : LastMessageView :=
  mkLastMessageView (m_id m) (m_text m) (m_userFrom m) (m_createdAt m)
    ((λ attachments : list Attachment, a_type <$> attachments) <$> m_attachments m).

Definition project_user (u : User) : UserView :=
  mkUserView (u_id u) (u_name u) (u_image u).

(** [$cond: { if: { $eq: ["$userTo", user] }, then: "$userFrom",
    else: "$userTo" }]. *)
Definition peer (user : option ObjectId) (c : Conversation) : ObjectId :=
  if bool_decide (Some (c_userTo c) = user) then c_userFrom c else c_userTo c.

Record GetConversationsParams := mkGetConversationsParams {
  gc_user : option ObjectId;
  gc_q : option string;
  gc_limit : option Z;
  gc_page : option Z;
}.

Section listing.
Context `{RegexEngine}.

(** The pipeline of [getConversations] up to the [$facet] stage. *)
Definition conversation_rows (query : Filter Conversation) (user : option ObjectId)
    (keyword : string) (w : World) : list ConversationView :=
  let docs := stage_match query (conversations w) in
  let docs :=
    stage_lookup_unwind (messages w)
      (λ c m, bool_decide (c_lastMessage c = Some (m_id m)))
      (λ c m, mkJoined c (project_lastMessage m)) docs in
  let docs := stage_sort_desc (λ j, lm_createdAt (j_lastMessage j)) docs in
  let docs :=
    (λ j, mkProjected (c_id (j_conversation j)) (peer user (j_conversation j))
            (j_lastMessage j)) <$> docs in
  stage_lookup_unwind (users w)
    (λ p u, bool_decide (u_id u = pj_user p) && regex_i keyword (u_name u))
    (λ p u, mkConversationView (pj_id p) (project_user u) (pj_lastMessage p)) docs.

Definition getConversations (params : GetConversationsParams)
    : M (Listing ConversationView) :=
  let user := gc_user params in
  let q := gc_q params in
  let limit := number_or 10 (gc_limit params) in
  let page := number_or 0 (gc_page params) in
  let page := if bool_decide (page ≠ 0%Z) then (page - 1)%Z else page in
  let query : Filter Conversation :=
    match user with
    | Some user => q_or [q_eq c_userTo user; q_eq c_userFrom user]
    | None => q_all
    end in
  let keyword := if truthy_string q then trim (default "" q) else "" in
  conversations ← aggregate (λ w,
    paginate page limit (conversation_rows query user keyword w));
  mret (spread conversations).
End listing.

Record SendParams := mkSendParams {
  s_userFrom : ObjectId;
  s_userTo : ObjectId;
  s_text : option string;
  s_attachments : option (list File);
  s_username : option string;
}.

(** The symmetric lookup of [send]. *)
Definition send_query (userFrom userTo : ObjectId) : Filter Conversation :=
  q_or [ q_and [q_eq c_userTo userFrom; q_eq c_userFrom userTo];
         q_and [q_eq c_userFrom userFrom; q_eq c_userTo userTo] ].

Section sending.
Context `{Transports}.

Definition send (params : SendParams) : M (Reply Message) :=
  let userFrom := s_userFrom params in
  let userTo := s_userTo params in
  let username := s_username params in
  let query := send_query userFrom userTo in
  conversationExists ← conversationsModel_findOne query;
  '(conversation, conversationExists) ←
    match conversationExists with
    | Some conversationExists =>
        let conversation := c_id conversationExists in
        if bool_decide (c_status conversationExists = PENDING) then
          if equals userFrom (c_userTo conversationExists) then
            let conversationExists := set_status ACCEPTED conversationExists in
            save conversationExists ;;
            mret (conversation, conversationExists)
          else mret (conversation, conversationExists)
        else if bool_decide (c_status conversationExists = REJECTED) then
          throw (Error "Conversation request rejected!|||400")
        else mret (conversation, conversationExists)
    | None =>
        conversationExists ← conversationsModel_create userTo userFrom;
        mret (c_id conversationExists, conversationExists)
    end;
  reply ← addMessage
    (mkAddMessageParams (Some userFrom) (Some userTo) (s_text params)
       (s_attachments params) (Some conversation));
  let message := data reply in
  let conversationExists := set_lastMessage (m_id message) conversationExists in
  save conversationExists ;;
  (* socket event emission *)
  to ← match m_userTo message with
       | Some userTo => mret (toString userTo)
       | None => throw (TypeError "Cannot read properties of undefined (reading 'toString')")
       end;
  let emitArgs :=
    mkEmitArgs to ("newMessage_" +:+ string_of_id (m_conversation message)) message in
  await (Emitted emitArgs) (emitEvent emitArgs) ;;
  let notificationObj :=
    mkNotificationObj (m_userTo message) (m_id message) (m_userFrom message) NEW_MESSAGE in
  (* database notification addition *)
  await (NotificationAdded notificationObj) (addNotification notificationObj) ;;
  userToExists ← usersModel_findById (m_userTo message);
  fcms ← match userToExists with
         | Some userToExists =>
             mret (foldl (λ fcms element, fcms ++ [token element]) [] (u_fcms userToExists))
         | None => throw (TypeError "Cannot read properties of null (reading 'fcms')")
         end;
  let title := "New Message" in
  let body := "New message from " +:+ string_of username in
  let type := NEW_MESSAGE in
  (* firebase notification emission *)
  let notifyArgs := mkNotifyArgs fcms title body type in
  await (Notified notifyArgs) (notify notifyArgs) ;;
  mret (mkReply true message).
End sending.

Record ReadMessagesParams := mkReadMessagesParams {
  rm_conversation : option ObjectId;
  rm_userTo : option ObjectId;
}.

Record Ack := mkAck {
  ack_success : bool;
  ack_message : string;
}.

Definition usersModel_exists (id : ObjectId) : M bool :=
  gets (λ w, bool_decide (Exists (λ u, u_id u = id) (users w))).
Definition conversationsModel_exists (id : ObjectId) : M bool :=
  gets (λ w, bool_decide (Exists (λ c, c_id c = id) (conversations w))).

(** [messagesModel.updateMany({ conversation, userTo }, { status: READ })]. *)
Definition messagesModel_updateMany (query : Filter Message) (update : Message → Message)
    : M unit :=
  modify (with_messages (fmap (λ m, if query m then update m else m))).

Definition readMessages (params : ReadMessagesParams) : M Ack :=
  match rm_userTo params with
  | Some userTo =>
      userExists ← usersModel_exists userTo;
      if userExists : bool then
        match rm_conversation params with
        | Some conversation =>
            conversationExists ← conversationsModel_exists conversation;
            if conversationExists : bool then
              messagesModel_updateMany
                (q_and [q_eq m_conversation (Some conversation); q_eq m_userTo (Some userTo)])
                (set_message_status (Some READ)) ;;
              mret (mkAck true "messages read successfully!")
            else throw (Error "Please enter valid conversation id!|||400")
        | None => throw (Error "Please enter conversation id!|||400")
        end
      else throw (Error "Please enter valid userTo id!|||400")
  | None => throw (Error "Please enter userTo id!|||400")
  end.

(* ===================================================================== *)
(** ** The steps of [send] *)
(* ===================================================================== *)

(** Lines 272-295 of the controller: find the conversation of the pair, or
    create it, applying the accept/reject rules. *)
Definition resolveConversation (userFrom userTo : ObjectId) : M (ObjectId * Conversation) :=
  conversationExists ← conversationsModel_findOne (send_query userFrom userTo);
  match conversationExists with
  | Some conversationExists =>
      let conversation := c_id conversationExists in
      if bool_decide (c_status conversationExists = PENDING) then
        if equals userFrom (c_userTo conversationExists) then
          let conversationExists := set_status ACCEPTED conversationExists in
          save conversationExists ;;
          mret (conversation, conversationExists)
        else mret (conversation, conversationExists)
      else if bool_decide (c_status conversationExists = REJECTED) then
        throw (Error "Conversation request rejected!|||400")
      else mret (conversation, conversationExists)
  | None =>
      conversationExists ← conversationsModel_create userTo userFrom;
      mret (c_id conversationExists, conversationExists)
  end.

(** Lines 297-301: create the message and point the conversation at it. *)
Definition persist (params : SendParams) (conversation : ObjectId)
    (conversationExists : Conversation) : M Message :=
  reply ← addMessage
    (mkAddMessageParams (Some (s_userFrom params)) (Some (s_userTo params)) (s_text params)
       (s_attachments params) (Some conversation));
  save (set_lastMessage (m_id (data reply)) conversationExists) ;;
  mret (data reply).

Definition emitArgs_of (message : Message) (to : string) : EmitArgs :=
  mkEmitArgs to ("newMessage_" +:+ string_of_id (m_conversation message)) message.
Definition notificationObj_of (message : Message) : NotificationObj :=
  mkNotificationObj (m_userTo message) (m_id message) (m_userFrom message) NEW_MESSAGE.
Definition notifyArgs_of (username : option string) (u : User) : NotifyArgs :=
  mkNotifyArgs (token <$> u_fcms u) "New Message"
    ("New message from " +:+ string_of username) NEW_MESSAGE.

Section fanout.
Context `{Transports}.

(** Lines 303-336: the three notification channels, in source order. *)
Definition fanout (username : option string) (message : Message) : M unit :=
  to ← match m_userTo message with
       | Some userTo => mret (toString userTo)
       | None => throw (TypeError "Cannot read properties of undefined (reading 'toString')")
       end;
  await (Emitted (emitArgs_of message to)) (emitEvent (emitArgs_of message to)) ;;
  await (NotificationAdded (notificationObj_of message))
    (addNotification (notificationObj_of message)) ;;
  userToExists ← usersModel_findById (m_userTo message);
  match userToExists with
  | Some u => await (Notified (notifyArgs_of username u)) (notify (notifyArgs_of username u))
  | None => throw (TypeError "Cannot read properties of null (reading 'fcms')")
  end.
End fanout.

(** The addressing of [getMessages] (lines 69-78): the match document, or
    none when the call throws. *)
Definition getMessages_query (params : GetMessagesParams) : option (Filter Message) :=
  match gm_conversation params with
  | Some conversation => Some (q_eq m_conversation (Some conversation))
  | None =>
      match gm_user1 params, gm_user2 params with
      | Some user1, Some user2 =>
          Some (q_or [ q_and [q_eq m_userTo (Some user1); q_eq m_userFrom (Some user2)];
                       q_and [q_eq m_userFrom (Some user1); q_eq m_userTo (Some user2)] ])
      | _, _ => None
      end
  end.

(** The zero-based page and the limit both listings compute from their
    parameters (lines 66-68 and 170-172). *)
Definition effective_limit (limit : option Z) : Z := number_or 10 limit.
Definition effective_page (page : option Z) : Z :=
  let page := number_or 0 page in
  if bool_decide (page ≠ 0%Z) then (page - 1)%Z else page.

(** The keyword of [getConversations] (line 175). *)
Definition keyword_of (q : option string) : string :=
  if truthy_string q then trim (default "" q) else "".

(** The participant filter of [getConversations] (lines 173-174). *)
Definition getConversations_query (user : option ObjectId) : Filter Conversation :=
  match user with
  | Some user => q_or [q_eq c_userTo user; q_eq c_userFrom user]
  | None => q_all
  end.

(** The status the store holds for a conversation identity. *)
Definition status_of (id : ObjectId) (w : World) : option ConversationStatus :=
  c_status <$> find (λ c, bool_decide (c_id c = id)) (conversations w).

(** Every operation the controller exports. *)
Inductive Operation :=
| OpAddMessage (params : AddMessageParams)
| OpGetMessages (params : GetMessagesParams)
| OpUpdateMessage (params : UpdateMessageParams)
| OpDeleteMessage (message : option ObjectId)
| OpGetConversations (params : GetConversationsParams)
| OpSend (params : SendParams)
| OpReadMessages (params : ReadMessagesParams).

Section operations.
Context `{Transports} `{RegexEngine}.

(** The store an operation leaves behind, whether it returns or throws. *)
Definition run (op : Operation) (w : World) : World :=
  match op with
  | OpAddMessage params => (addMessage params w).2
  | OpGetMessages params => (getMessages params w).2
  | OpUpdateMessage params => (updateMessage params w).2
  | OpDeleteMessage message => (deleteMessage message w).2
  | OpGetConversations params => (getConversations params w).2
  | OpSend params => (send params w).2
  | OpReadMessages params => (readMessages params w).2
  end.
End operations.

(* ===================================================================== *)
(** ** Derived notions used in the statements *)
(* ===================================================================== *)

(** The attachment entries [addMessage] stores for a list of uploaded
    files: the files with a truthy [path], in order, each as
    [{ path: filename, type: mimetype }]. *)
Definition stored_attachments (attachments : list File) : list Attachment :=
  (λ f, mkAttachment (filename f) (mimetype f)) <$>
    filter (λ f, truthy_string (path f)) attachments.

(** The lookup of a conversation by identity. *)
Definition by_id (id : ObjectId) : Filter Conversation := λ c, bool_decide (c_id c = id).

(** The store after the calls [effs] were handed to the collaborators. *)
Definition emitted (effs : list Effect) (w : World) : World :=
  with_outbox (λ o, o ++ effs) w.

(** The value an outcome returned, if it did. *)
Definition returned {A} (o : Outcome A) : option A :=
  match o with Returned a => Some a | Thrown _ => None end.

(** A store with no document. *)
Definition empty_world : World := mkWorld [] [] [] 0%N 0%Z [].

(** The row the pipeline of [getConversations] yields for one
    conversation when identities are unique in their collections: its
    last message and its peer joined in, or no row when either join finds
    nothing. *)
Definition conversation_view `{RegexEngine} (user : option ObjectId) (keyword : string)
    (w : World) (c : Conversation) : option ConversationView :=
  m ← find (λ m, bool_decide (c_lastMessage c = Some (m_id m))) (messages w);
  u ← find (λ u, bool_decide (u_id u = peer user c) && regex_i keyword (u_name u)) (users w);
  Some (mkConversationView (c_id c) (project_user u) (project_lastMessage m)).

(** The store's invariant: identities are unique within a collection and
    were all issued before the next fresh one. *)
Definition well_formed (w : World) : Prop :=
  NoDup (c_id <$> conversations w) ∧
  NoDup (m_id <$> messages w) ∧
  NoDup (u_id <$> users w) ∧
  Forall (λ id, (id < nextId w)%N) (c_id <$> conversations w) ∧
  Forall (λ id, (id < nextId w)%N) (m_id <$> messages w).

(** The pointer invariant of the data model: a conversation's last message,
    once set, is a stored message of that conversation. *)
Definition lastMessage_linked (w : World) : Prop :=
  ∀ c id, c ∈ conversations w → c_lastMessage c = Some id →
    ∃ m, m ∈ messages w ∧ m_id m = id ∧ m_conversation m = Some (c_id c).

(** Two conversations cover the same unordered pair of users. *)
Definition same_pair (c d : Conversation) : Prop :=
  (c_userFrom c = c_userFrom d ∧ c_userTo c = c_userTo d) ∨
  (c_userFrom c = c_userTo d ∧ c_userTo c = c_userFrom d).

(** At most one stored conversation per unordered pair of users. *)
Definition pair_unique (l : list Conversation) : Prop :=
  ∀ i j c d, l !! i = Some c → l !! j = Some d → same_pair c d → i = j.

(** The two participants of a conversation, as stored. *)
Definition participants (c : Conversation) : ObjectId * ObjectId :=
  (c_userFrom c, c_userTo c).

(** The same request with the two users of the pair exchanged. *)
Definition swap_users (params : GetMessagesParams) : GetMessagesParams :=
  mkGetMessagesParams (gm_conversation params) (gm_page params) (gm_limit params)
    (gm_user2 params) (gm_user1 params).

(** The addressing of a [getMessages] request, in the words of its
    contract: a request is well addressed when it names a conversation or
    both users of a pair; it then addresses the messages of that
    conversation or, without one, the messages one user of the pair sent
    to the other. *)
Definition well_addressed (params : GetMessagesParams) : Prop :=
  is_Some (gm_conversation params) ∨
  (is_Some (gm_user1 params) ∧ is_Some (gm_user2 params)).

Definition addressed (params : GetMessagesParams) (m : Message) : Prop :=
  match gm_conversation params, gm_user1 params, gm_user2 params with
  | Some conversation, _, _ => m_conversation m = Some conversation
  | None, Some user1, Some user2 =>
      (m_userFrom m = Some user1 ∧ m_userTo m = Some user2) ∨
      (m_userFrom m = Some user2 ∧ m_userTo m = Some user1)
  | None, _, _ => False
  end.

#[global] Instance addressed_dec (params : GetMessagesParams) (m : Message) :
  Decision (addressed params m).
Proof.
  unfold addressed.
  destruct (gm_conversation params), (gm_user1 params), (gm_user2 params); apply _.
Defined.


(** White space in the words of the language standard: the WhiteSpace
    code points (TAB, VT, FF, SP, NBSP, ZWNBSP and every other space
    separator of Unicode) and the LineTerminator code points (LF, CR, LS,
    PS). *)
Definition is_white_space (cp : N) : Prop :=
  cp ∈ [0x9; 0xB; 0xC; 0x20; 0xA0; 0xFEFF]%N ∨
  cp ∈ [0x1680; 0x202F; 0x205F; 0x3000]%N ∨ (0x2000 ≤ cp ≤ 0x200A)%N ∨
  cp ∈ [0xA; 0xD; 0x2028; 0x2029]%N.

(** Strings made of white space only, strings with no white space at
    either end, and what it means for [keyword] to be [q] trimmed. *)
Inductive blank : string → Prop :=
| blank_empty : blank ""
| blank_space (cp : N) (s : string) : is_white_space cp → blank s → blank (utf8 cp +:+ s).

Definition trimmed (s : string) : Prop :=
  ∀ cp rest, is_white_space cp → s ≠ utf8 cp +:+ rest ∧ s ≠ rest +:+ utf8 cp.

Definition trimmed_from (q keyword : string) : Prop :=
  ∃ pre post, q = pre +:+ keyword +:+ post ∧ blank pre ∧ blank post ∧ trimmed keyword.


(* ===================================================================== *)
(** ** The reset-password page *)
(* ===================================================================== *)

(** The submit handler of [public/reset-password.html], over the part of
    the document it touches. A string typed by the user is the list of its
    UTF-16 code units, so that [.length] is the length of the list; a class
    list is the set of its tokens. *)
Module ResetPassword.

Record Input := mkInput {
  value : list N;
  classList : gset string;
}.

Record Button := mkButton {
  disabled : bool;
  innerText : string;
}.

(** The object [JSON.stringify] is given as the request body; [None] is
    [null]. *)
Record Data := mkData {
  user : option (list N);
  password : list N;
  token : option (list N);
}.

Record Request := mkRequest {
  url : string;
  method : string;
  headers : list (string * string);
  body : Data;
}.

(** How the promise of [fetch] settles: resolved with a response of some
    HTTP status, or rejected with an error. *)
Inductive Settled :=
| Resolved (status : N)
| Rejected (message : string).

Record Page := mkPage {
  newPasswordInput : Input;
  confirmPasswordInput : Input;
  buttonElem : Button;
  origin : string;
  defaultPrevented : bool;
  requests : list Request;
  alerts : list string;
}.

Definition classList_add (token : string) (i : Input) : Input :=
  mkInput (value i) ({[token]} ∪ classList i).
Definition classList_remove (token : string) (i : Input) : Input :=
  mkInput (value i) (classList i ∖ {[token]}).

Definition with_newPasswordInput (f : Input → Input) (p : Page) : Page :=
  mkPage (f (newPasswordInput p)) (confirmPasswordInput p) (buttonElem p) (origin p)
    (defaultPrevented p) (requests p) (alerts p).
Definition with_confirmPasswordInput (f : Input → Input) (p : Page) : Page :=
  mkPage (newPasswordInput p) (f (confirmPasswordInput p)) (buttonElem p) (origin p)
    (defaultPrevented p) (requests p) (alerts p).
Definition with_buttonElem (f : Button → Button) (p : Page) : Page :=
  mkPage (newPasswordInput p) (confirmPasswordInput p) (f (buttonElem p)) (origin p)
    (defaultPrevented p) (requests p) (alerts p).
Definition preventDefault (p : Page) : Page :=
  mkPage (newPasswordInput p) (confirmPasswordInput p) (buttonElem p) (origin p)
    true (requests p) (alerts p).
Definition sent (r : Request) (p : Page) : Page :=
  mkPage (newPasswordInput p) (confirmPasswordInput p) (buttonElem p) (origin p)
    (defaultPrevented p) (requests p ++ [r]) (alerts p).
Definition alert (message : string) (p : Page) : Page :=
  mkPage (newPasswordInput p) (confirmPasswordInput p) (buttonElem p) (origin p)
    (defaultPrevented p) (requests p) (alerts p ++ [message]).

(** [URLSearchParams]: the list of its entries; [get] returns the first
    value of a name, or [null]. *)
Definition URLSearchParams := list (string * list N).
Definition searchParams_get (name : string) (params : URLSearchParams) : option (list N) :=
  snd <$> find (λ entry, bool_decide (fst entry = name)) params.

Definition handleSubmit (fetch : Request → Settled) (p : Page) : Page :=
  let p := preventDefault p in
  let newPassword := value (newPasswordInput p) in
  let confirmPassword := value (confirmPasswordInput p) in
  if bool_decide (length newPassword < 6)%nat then
    let p := with_newPasswordInput (classList_remove "border-blue-300") p in
    let p := with_newPasswordInput (classList_add "border-red-500") p in
    p
  else
    let p := with_newPasswordInput (classList_add "border-blue-300") p in
    let p := with_newPasswordInput (classList_remove "border-red-500") p in
    if bool_decide (newPassword ≠ confirmPassword) then
      let p := with_confirmPasswordInput (classList_remove "border-blue-300") p in
      let p := with_confirmPasswordInput (classList_add "border-red-500") p in
      p
    else
      let p := with_confirmPasswordInput (classList_add "border-blue-300") p in
      let p := with_confirmPasswordInput (classList_remove "border-red-500") p in
      let searchParams : URLSearchParams := [] in
      let user := searchParams_get "user" searchParams in
      let token := searchParams_get "token" searchParams in
      let p := with_buttonElem (λ b, mkButton true (innerText b)) p in
      let p := with_buttonElem (λ b, mkButton (disabled b) "Submitting...") p in
      let baseURL := origin p in
      let data := mkData user newPassword token in
      let request :=
        mkRequest (baseURL +:+ "/api/v1/users/password/email") "PUT"
          [("Content-Type", "application/json")] data in
      let p := sent request p in
      match fetch request with
      | Resolved res => alert "Password updated successfully." p
      | Rejected message => alert message p
      end.

End ResetPassword.

(** How the handler marks an input: [marked_invalid i i'] says that [i']
    is [i] with the red border and without the blue one, [marked_valid]
    the converse; the other class tokens and the value are those of [i]. *)
Definition marked_invalid (i i' : ResetPassword.Input) : Prop :=
  ResetPassword.value i' = ResetPassword.value i ∧
  "border-red-500" ∈ ResetPassword.classList i' ∧
  ("border-blue-300" ∉ ResetPassword.classList i') ∧
  (∀ t, t ≠ "border-red-500" → t ≠ "border-blue-300" →
        (t ∈ ResetPassword.classList i' ↔ t ∈ ResetPassword.classList i)).
Definition marked_valid (i i' : ResetPassword.Input) : Prop :=
  ResetPassword.value i' = ResetPassword.value i ∧
  "border-blue-300" ∈ ResetPassword.classList i' ∧
  ("border-red-500" ∉ ResetPassword.classList i') ∧
  (∀ t, t ≠ "border-red-500" → t ≠ "border-blue-300" →
        (t ∈ ResetPassword.classList i' ↔ t ∈ ResetPassword.classList i)).

(** The request the page sends for a password, from a page at [origin]. *)
Definition password_request (origin : string) (password : list N) : ResetPassword.Request :=
  ResetPassword.mkRequest (origin +:+ "/api/v1/users/password/email") "PUT"
    [("Content-Type", "application/json")]
    (ResetPassword.mkData None password None).

(** The page as served, with the two fields filled in. *)
Definition served_page (newPassword confirmPassword : list N) : ResetPassword.Page :=
  let classes : gset string :=
    {["border-2"; "hover:border-blue-500"; "focus:border-blue-500"; "border-blue-300";
      "p-2"; "rounded-md"]} in
  ResetPassword.mkPage (ResetPassword.mkInput newPassword classes)
    (ResetPassword.mkInput confirmPassword classes)
    (ResetPassword.mkButton false "Submit") "https://example.org" false [] [].

(** The code units of "secret1". *)
Definition secret1 : list N := [115; 101; 99; 114; 101; 116; 49]%N.

(* ===================================================================== *)
(** ** Sample stores and transports *)
(* ===================================================================== *)

(** Transports that accept every call. *)
Definition quiet : Transports :=
  {| emitEvent := λ _, None; addNotification := λ _, None; notify := λ _, None |}.

(** Transports whose real-time channel rejects every call. *)
Definition socket_down : Transports :=
  {| emitEvent := λ _, Some (TransportError "socket unavailable");
     addNotification := λ _, None;
     notify := λ _, None |}.

(** A literal, case-insensitive match on ASCII letters, for keywords
    without regular-expression metacharacters. *)
Definition lower (c : ascii) : ascii :=
  let n := N_of_ascii c in
  if bool_decide (65 ≤ n ≤ 90)%N then ascii_of_N (n + 32) else c.
Fixpoint lower_string (s : string) : string :=
  match s with
  | EmptyString => EmptyString
  | String c rest => String (lower c) (lower_string rest)
  end.
Fixpoint contains (fuel : nat) (needle hay : string) : bool :=
  if String.prefix needle hay then true
  else match fuel, hay with
       | S fuel, String _ rest => contains fuel needle rest
       | _, _ => false
       end.
Definition literal_regex : RegexEngine :=
  {| regex_i := λ pattern subject,
       contains (String.length subject) (lower_string pattern) (lower_string subject) |}.

(** Two users; Ann has a registered device. *)
Definition ann : User := mkUser 1%N "Ann" None [mkFcm "token-a"].
Definition bob : User := mkUser 2%N "Bob" (Some "bob.png") [].

(** Ann and Bob have never written to each other. *)
Definition fresh_world : World := mkWorld [] [] [ann; bob] 100%N 0%Z [].

(** Ann (1) asked Bob (2); Bob rejected. *)
Definition rejected_world : World :=
  mkWorld [] [mkConversation 7%N 1%N 2%N REJECTED None] [ann; bob] 100%N 0%Z [].

(** Ann (1) asked Bob (2); Bob has not answered. *)
Definition pending_world : World :=
  mkWorld [mkMessage 8%N (Some 1%N) (Some 2%N) (Some 7%N) (Some "hi") None SENT 5%Z]
    [mkConversation 7%N 1%N 2%N PENDING (Some 8%N)] [ann; bob] 100%N 9%Z [].

Definition ann_to_bob : SendParams := mkSendParams 1%N 2%N (Some "hi") None (Some "Ann").
Definition bob_to_ann : SendParams := mkSendParams 2%N 1%N (Some "hello") None (Some "Bob").

(** Ann writes to herself. *)
Definition ann_to_ann : SendParams := mkSendParams 1%N 1%N (Some "note") None (Some "Ann").

(** The channel a recorded call went to. *)
Inductive Channel := RealTime | Durable | Push.
Definition channel_of (eff : Effect) : Channel :=
  match eff with
  | Emitted _ => RealTime
  | NotificationAdded _ => Durable
  | Notified _ => Push
  end.

(* ===================================================================== *)
(** ** Basic facts *)
(* ===================================================================== *)

Lemma bind_run {A B} (m : M A) (f : A → M B) (w : World) :
  (m ≫= f) w =
  match m w with
  | (Returned a, w') => f a w'
  | (Thrown e, w') => (Thrown e, w')
  end.
Proof. reflexivity. Qed.

Lemma bind_assoc_run {A B C} (m : M A) (f : A → M B) (g : B → M C) (w : World) :
  ((m ≫= f) ≫= g) w = (m ≫= λ a, f a ≫= g) w.
Proof. rewrite !bind_run. by destruct (m w) as [[a|e] w']. Qed.

Lemma bind_ext_run {A B} (m : M A) (f g : A → M B) (w : World) :
  (∀ a w', f a w' = g a w') → (m ≫= f) w = (m ≫= g) w.
Proof. intros E. rewrite !bind_run. destruct (m w) as [[a|e] w']; [apply E | reflexivity]. Qed.

Lemma ret_bind_run {A B} (a : A) (f : A → M B) (w : World) :
  (mret a ≫= f) w = f a w.
Proof. reflexivity. Qed.

Lemma throw_bind_run {A B} (e : Exn) (f : A → M B) (w : World) :
  (throw e ≫= f) w = (Thrown e, w).
Proof. reflexivity. Qed.

Lemma foldl_push {A B} (f : A → B) (l : list A) (acc : list B) :
  foldl (λ acc x, acc ++ [f x]) acc l = acc ++ (f <$> l).
Proof.
  revert acc. induction l as [|x l IH]; intros acc; simpl.
  - by rewrite app_nil_r.
  - by rewrite IH, <- app_assoc.
Qed.

Section steps.
Context `{Transports}.

Lemma send_steps (params : SendParams) (w : World) :
  send params w =
  ('(conversation, conversationExists) ←
      resolveConversation (s_userFrom params) (s_userTo params);
   message ← persist params conversation conversationExists;
   fanout (s_username params) message ;;
   mret (mkReply true message)) w.
Proof.
  unfold send, resolveConversation, persist.
  rewrite (bind_assoc_run (conversationsModel_findOne _)).
  apply bind_ext_run; intros ce w1.
  apply bind_ext_run; intros [conversation conversationExists] w2.
  rewrite (bind_assoc_run (addMessage _)).
  apply bind_ext_run; intros reply w3.
  rewrite (bind_assoc_run (save _)).
  apply bind_ext_run; intros _ w4.
  rewrite ret_bind_run. unfold fanout.
  rewrite (bind_assoc_run (match m_userTo _ with Some _ => _ | None => _ end)).
  apply bind_ext_run; intros to w5.
  rewrite (bind_assoc_run (await _ _)).
  apply bind_ext_run; intros _ w6.
  rewrite (bind_assoc_run (await _ _)).
  apply bind_ext_run; intros _ w7.
  rewrite (bind_assoc_run (usersModel_findById _)).
  apply bind_ext_run; intros [u|] w8.
  - rewrite ret_bind_run. unfold notifyArgs_of. by rewrite foldl_push.
  - reflexivity.
Qed.
End steps.

(* ===================================================================== *)
(** ** Creating a message *)
(* ===================================================================== *)

Lemma alter_push (obj : JsObject) (acc : list Attachment) (a : Attachment) :
  obj !! "attachments" = Some (JAttachments acc) →
  alter (push a) "attachments" obj = <["attachments" := JAttachments (acc ++ [a])]> obj.
Proof.
  intros Hobj. apply map_eq; intros k.
  rewrite lookup_alter, lookup_insert.
  case_decide; subst; [by rewrite Hobj | done].
Qed.

Lemma foldl_attachments (attachments : list File) (obj : JsObject) (acc : list Attachment) :
  obj !! "attachments" = Some (JAttachments acc) →
  foldl (λ messageObj attachment,
           if truthy_string (path attachment) then
             alter (push (mkAttachment (filename attachment) (mimetype attachment)))
               "attachments" messageObj
           else messageObj)
    obj attachments
  = <["attachments" := JAttachments (acc ++ stored_attachments attachments)]> obj.
Proof.
  revert obj acc. induction attachments as [|f l IH]; intros obj acc Hobj; simpl.
  - unfold stored_attachments. simpl. rewrite app_nil_r. by rewrite insert_id.
  - unfold stored_attachments. rewrite filter_cons.
    destruct (truthy_string (path f)) eqn:Hp.
    + rewrite (alter_push _ acc) by done.
      rewrite (IH _ (acc ++ [_])) by apply lookup_insert_eq.
      rewrite insert_insert_eq. simpl.
      unfold stored_attachments. by rewrite <- app_assoc.
    + simpl. by apply IH.
Qed.

(** The object handed to the model, property by property. *)
Lemma messageObj_of_lookup (params : AddMessageParams) (k : string) :
  messageObj_of params !! k =
  if bool_decide (k = "userFrom") then JObjectId <$> am_userFrom params
  else if bool_decide (k = "userTo") then JObjectId <$> am_userTo params
  else if bool_decide (k = "conversation") then JObjectId <$> am_conversation params
  else if bool_decide (k = "text") then
    JString <$> (if truthy_string (am_text params) then am_text params else None)
  else if bool_decide (k = "attachments") then
    (λ l, JAttachments (stored_attachments l)) <$> am_attachments params
  else None.
Proof.
  unfold messageObj_of.
  destruct params as [uf ut text att conv]; simpl.
  destruct att as [att|]; [rewrite (foldl_attachments _ _ []) by apply lookup_insert_eq|].
  all: destruct uf, ut, conv, text as [text|]; simpl;
    try destruct (bool_decide (text = "")); simpl;
    rewrite ?lookup_insert, ?lookup_empty;
    repeat case_bool_decide; subst; simpl; repeat case_decide; congruence.
Qed.

Lemma messagesModel_create_run (obj : JsObject) (w : World) :
  ∃ message,
    messagesModel_create obj w =
      (Returned message, with_nextId N.succ (with_messages (λ l, l ++ [message]) w)) ∧
    m_id message = nextId w ∧
    m_userFrom message = obj !! "userFrom" ≫= as_ObjectId ∧
    m_userTo message = obj !! "userTo" ≫= as_ObjectId ∧
    m_conversation message = obj !! "conversation" ≫= as_ObjectId ∧
    m_text message = obj !! "text" ≫= as_String ∧
    m_attachments message = obj !! "attachments" ≫= as_Attachments ∧
    m_status message = SENT ∧
    m_createdAt message = clock w.
Proof. eexists. unfold messagesModel_create. repeat split. Qed.

(** What [addMessage] returns and leaves in the store. *)
Lemma addMessage_run (params : AddMessageParams) (w : World) :
  ∃ message,
    addMessage params w =
      (Returned (mkReply true message),
       with_nextId N.succ (with_messages (λ l, l ++ [message]) w)) ∧
    m_id message = nextId w ∧
    m_userFrom message = am_userFrom params ∧
    m_userTo message = am_userTo params ∧
    m_conversation message = am_conversation params ∧
    m_text message = (if truthy_string (am_text params) then am_text params else None) ∧
    m_attachments message = stored_attachments <$> am_attachments params ∧
    m_status message = SENT ∧
    m_createdAt message = clock w.
Proof.
  destruct (messagesModel_create_run (messageObj_of params) w)
    as (message & Hrun & Hid & Huf & Hut & Hc & Ht & Ha & Hs & Hat).
  exists message. unfold addMessage. rewrite bind_run, Hrun.
  rewrite !messageObj_of_lookup in *. simpl in *.
  repeat split; try done.
  - rewrite Huf. by destruct (am_userFrom params).
  - rewrite Hut. by destruct (am_userTo params).
  - rewrite Hc. by destruct (am_conversation params).
  - rewrite Ht. by destruct (truthy_string _), (am_text params).
  - rewrite Ha. by destruct (am_attachments params).
Qed.

(** C9 (as amended): [addMessage] stores one attachment entry per uploaded
    file that carries a truthy storage path, in input order; the entry's
    [path] is that file's [filename] (not its storage path) and its [type]
    is the file's mime type; files without a storage path are dropped. A
    falsy optional field ([userFrom], [userTo], [conversation], [text],
    [attachments]) is not assigned to the object handed to the model, and
    no property of that object is [null]. *)
Theorem addMessage_stored_document (params : AddMessageParams) (w : World) :
  (∃ message,
     addMessage params w =
       (Returned (mkReply true message),
        with_nextId N.succ (with_messages (λ l, l ++ [message]) w)) ∧
     m_attachments message = stored_attachments <$> am_attachments params ∧
     m_text message = (if truthy_string (am_text params) then am_text params else None) ∧
     m_userFrom message = am_userFrom params ∧
     m_userTo message = am_userTo params ∧
     m_conversation message = am_conversation params) ∧
  messageObj_of params !! "attachments" =
    (λ files : list File, JAttachments (stored_attachments files)) <$> am_attachments params ∧
  messageObj_of params !! "text" =
    JString <$> (if truthy_string (am_text params) then am_text params else None) ∧
  messageObj_of params !! "userFrom" = JObjectId <$> am_userFrom params ∧
  messageObj_of params !! "userTo" = JObjectId <$> am_userTo params ∧
  messageObj_of params !! "conversation" = JObjectId <$> am_conversation params ∧
  dom (messageObj_of params) ⊆
    ({["userFrom"; "userTo"; "conversation"; "text"; "attachments"]} : gset string) ∧
  (∀ k, messageObj_of params !! k ≠ Some JNull).
Proof.
  split.
  { destruct (addMessage_run params w) as (message & ? & ? & ? & ? & ? & ? & ? & ?).
    exists message. by repeat split. }
  rewrite !messageObj_of_lookup. simpl.
  repeat split; try done.
  - intros k [v Hk]%elem_of_dom. rewrite messageObj_of_lookup in Hk.
    repeat case_bool_decide; subst; try set_solver.
  - intros k. rewrite messageObj_of_lookup.
    repeat case_bool_decide; try done.
    + by destruct (am_userFrom params).
    + by destruct (am_userTo params).
    + by destruct (am_conversation params).
    + by destruct (truthy_string _), (am_text params).
    + by destruct (am_attachments params).
Qed.

(** C9 fails as stated: for an uploaded file stored at ["uploads/a.png"]
    under the file name ["a.png"], the stored entry's [path] is the file
    name, not the storage path. *)
Lemma addMessage_path_is_filename :
  let file := mkFile (Some "uploads/a.png") (Some "a.png") (Some "image/png") in
  let params := mkAddMessageParams None None None (Some [file]) None in
  (m_attachments ∘ data <$> returned (addMessage params empty_world).1) =
    Some (Some [mkAttachment (Some "a.png") (Some "image/png")]) ∧
  Some "a.png" ≠ path file.
Proof. split; [vm_compute; reflexivity | discriminate]. Qed.

(* ===================================================================== *)
(** ** Deleting a message *)
(* ===================================================================== *)

(** C8 (as amended): [deleteMessage] without a message id fails with
    [InvalidArgument]; with an id that matches no stored message it fails
    with [InvalidArgument] as well (message "Please enter valid message
    id!", code 400), leaving the store as it was; with an id that matches a
    stored message it removes that message from the store and returns it. *)
Theorem deleteMessage_outcomes (w : World) :
  deleteMessage None w = (Thrown (Error "Please enter message id!|||400"), w) ∧
  kind (Error "Please enter message id!|||400") = InvalidArgument ∧
  (∀ id, Forall (λ m, m_id m ≠ id) (messages w) →
         deleteMessage (Some id) w =
           (Thrown (Error "Please enter valid message id!|||400"), w)) ∧
  kind (Error "Please enter valid message id!|||400") = InvalidArgument ∧
  (∀ id, Exists (λ m, m_id m = id) (messages w) →
         ∃ i m,
           messages w !! i = Some m ∧ m_id m = id ∧
           deleteMessage (Some id) w =
             (Returned (mkReply true m), with_messages (delete i) w) ∧
           length (messages (deleteMessage (Some id) w).2) = pred (length (messages w)) ∧
           (NoDup (m_id <$> messages w) →
            Forall (λ m', m_id m' ≠ id) (messages (deleteMessage (Some id) w).2))).
Proof.
  split; [reflexivity|]. split; [reflexivity|]. split; [|split; [reflexivity|]].
  - intros id Hnone. unfold deleteMessage, messagesModel_findByIdAndDelete.
    rewrite bind_run.
    destruct (list_find _ _) as [[i m]|] eqn:Hfind; [|reflexivity].
    apply list_find_Some in Hfind as (Hi & Hm & _).
    rewrite Forall_forall in Hnone. destruct (Hnone m); [|done].
    by eapply list_elem_of_lookup_2.
  - intros id Hex. unfold deleteMessage, messagesModel_findByIdAndDelete.
    rewrite bind_run.
    destruct (list_find _ _) as [[i m]|] eqn:Hfind.
    + apply list_find_Some in Hfind as (Hi & Hm & Hfirst).
      exists i, m. simpl. repeat split; try done.
      * rewrite length_delete; [lia | by eexists].
      * intros Hnodup. apply Forall_forall. intros m' Hm' Hid.
        apply list_elem_of_lookup in Hm' as [j Hj].
        assert (Hj' : messages w !! (if decide (j < i) then j else S j) = Some m').
        { simpl in Hj. by rewrite list_lookup_delete in Hj. }
        assert (i = (if decide (j < i) then j else S j)).
        { eapply NoDup_lookup; [exact Hnodup| |].
          - rewrite list_lookup_fmap, Hi. simpl. reflexivity.
          - rewrite list_lookup_fmap, Hj'. simpl. congruence. }
        case_decide; lia.
    + apply list_find_None in Hfind. rewrite Forall_forall in Hfind.
      apply Exists_exists in Hex as (m & Hm & Hid). by destruct (Hfind m).
Qed.

(* ===================================================================== *)
(** ** The conversation store *)
(* ===================================================================== *)

Lemma send_query_spec (userFrom userTo : ObjectId) (c : Conversation) :
  send_query userFrom userTo c = true ↔
  (c_userTo c = userFrom ∧ c_userFrom c = userTo) ∨
  (c_userFrom c = userFrom ∧ c_userTo c = userTo).
Proof.
  unfold send_query, q_or, q_and, q_eq. simpl.
  repeat case_bool_decide; simpl; intuition congruence.
Qed.

(** The lookup of [send] does not depend on the order of the pair. *)
Lemma send_query_sym (userFrom userTo : ObjectId) (c : Conversation) :
  send_query userFrom userTo c = send_query userTo userFrom c.
Proof.
  apply eq_true_iff_eq. rewrite !send_query_spec. tauto.
Qed.

Lemma find_ext {A} (p q : A → bool) (l : list A) :
  (∀ x, p x = q x) → find p l = find q l.
Proof. intros E. induction l as [|x l IH]; simpl; [done|]. by rewrite E, IH. Qed.

Lemma find_send_query_sym (userFrom userTo : ObjectId) (l : list Conversation) :
  find (send_query userFrom userTo) l = find (send_query userTo userFrom) l.
Proof. apply find_ext. intros c. apply send_query_sym. Qed.

Lemma find_elem_of {A} (p : A → bool) (l : list A) (x : A) :
  find p l = Some x → x ∈ l ∧ p x = true.
Proof. intros [Hin Hp]%find_some. by rewrite list_elem_of_In. Qed.

Lemma find_snoc {A} (p : A → bool) (l : list A) (x : A) :
  find p (l ++ [x]) =
  match find p l with
  | Some y => Some y
  | None => if p x then Some x else None
  end.
Proof. induction l as [|y l IH]; simpl; [done|]. by destruct (p y). Qed.

(** Saving a document that matches a query the store already answered with
    a document of the same identity: the query now answers with the saved
    document. *)
Lemma find_replace_by_id (q : Filter Conversation) (c c' : Conversation)
    (l : list Conversation) :
  find q l = Some c → q c' = true → c_id c' = c_id c →
  find q (replace_by_id c' l) = Some c'.
Proof.
  intros Hfind Hq Hid. induction l as [|d l IH]; simpl in *; [done|].
  case_bool_decide as Hd; simpl.
  - by rewrite Hq.
  - destruct (q d) eqn:Hqd.
    + by simplify_eq.
    + by apply IH.
Qed.

Lemma find_by_id_replace (c : Conversation) (l : list Conversation) :
  Exists (λ d, c_id d = c_id c) l →
  find (by_id (c_id c)) (replace_by_id c l) = Some c.
Proof.
  induction 1 as [d l Hd | d l _ IH]; simpl.
  - rewrite bool_decide_true by done. unfold by_id. by rewrite bool_decide_true.
  - case_bool_decide as Hd; unfold by_id at 1.
    + by rewrite bool_decide_true.
    + by rewrite bool_decide_false.
Qed.

Lemma find_by_id_replace_ne (id : ObjectId) (c : Conversation) (l : list Conversation) :
  id ≠ c_id c →
  find (by_id id) (replace_by_id c l) = find (by_id id) l.
Proof.
  intros Hne. induction l as [|d l IH]; simpl; [done|].
  case_bool_decide as Hd; unfold by_id at 1 3.
  - rewrite !bool_decide_false by congruence. apply IH.
  - by rewrite IH.
Qed.

Lemma find_by_id_NoDup (c : Conversation) (l : list Conversation) :
  NoDup (c_id <$> l) → c ∈ l → find (by_id (c_id c)) l = Some c.
Proof.
  induction l as [|d l IH]; simpl; intros Hnd Hin; [by apply elem_of_nil in Hin|].
  apply NoDup_cons in Hnd as [Hd Hnd].
  apply elem_of_cons in Hin as [->|Hin].
  - unfold by_id. by rewrite bool_decide_true.
  - unfold by_id at 1. rewrite bool_decide_false; [by apply IH|].
    intros E. apply Hd. rewrite E. by apply list_elem_of_fmap_2.
Qed.

Lemma length_replace_by_id (c : Conversation) (l : list Conversation) :
  length (replace_by_id c l) = length l.
Proof. unfold replace_by_id. by rewrite length_fmap. Qed.

Lemma send_query_set_lastMessage uf ut m c :
  send_query uf ut (set_lastMessage m c) = send_query uf ut c.
Proof. reflexivity. Qed.

(* ===================================================================== *)
(** ** Resolving the conversation of a pair *)
(* ===================================================================== *)

Lemma resolveConversation_run (userFrom userTo : ObjectId) (w : World) :
  resolveConversation userFrom userTo w =
  match find (send_query userFrom userTo) (conversations w) with
  | Some c =>
      if bool_decide (c_status c = PENDING) then
        if bool_decide (userFrom = c_userTo c) then
          (Returned (c_id c, set_status ACCEPTED c),
           with_conversations (replace_by_id (set_status ACCEPTED c)) w)
        else (Returned (c_id c, c), w)
      else if bool_decide (c_status c = REJECTED) then
        (Thrown (Error "Conversation request rejected!|||400"), w)
      else (Returned (c_id c, c), w)
  | None =>
      let c := mkConversation (nextId w) userFrom userTo PENDING None in
      (Returned (c_id c, c), with_nextId N.succ (with_conversations (λ l, l ++ [c]) w))
  end.
Proof.
  unfold resolveConversation, conversationsModel_findOne, equals.
  rewrite bind_run. unfold gets at 1.
  destruct (find _ _) as [c|]; [|reflexivity].
  repeat case_bool_decide; reflexivity.
Qed.

(** A conversation the lookup finds and that is not rejected is reused,
    whichever way round the pair is given, and no conversation is added. *)
Lemma resolveConversation_reuse (userFrom userTo userFrom' userTo' : ObjectId)
    (c : Conversation) (w : World) :
  find (send_query userFrom userTo) (conversations w) = Some c →
  c_status c ≠ REJECTED →
  (userFrom', userTo') = (userFrom, userTo) ∨ (userFrom', userTo') = (userTo, userFrom) →
  ∃ c' w',
    resolveConversation userFrom' userTo' w = (Returned (c_id c, c'), w') ∧
    length (conversations w') = length (conversations w).
Proof.
  intros Hfind Hst Hpair. rewrite resolveConversation_run.
  assert (find (send_query userFrom' userTo') (conversations w) = Some c) as ->.
  { destruct Hpair as [[= -> ->]|[= -> ->]]; [done|]. by rewrite find_send_query_sym. }
  repeat case_bool_decide; try done; eexists _, _; (split; [reflexivity|]);
    simpl; by rewrite ?length_replace_by_id.
Qed.

(** After a resolution that returned, the lookup finds the returned
    document. *)
Lemma resolveConversation_found (userFrom userTo conversation : ObjectId)
    (conversationExists : Conversation) (w w1 : World) :
  resolveConversation userFrom userTo w = (Returned (conversation, conversationExists), w1) →
  find (send_query userFrom userTo) (conversations w1) = Some conversationExists ∧
  c_id conversationExists = conversation ∧
  c_status conversationExists ≠ REJECTED ∧
  (length (conversations w1) ≤ S (length (conversations w)))%nat.
Proof.
  rewrite resolveConversation_run.
  destruct (find _ (conversations w)) as [c|] eqn:Hfind.
  - assert (Hq : send_query userFrom userTo c = true).
    { by apply find_elem_of in Hfind as [_ ?]. }
    repeat case_bool_decide; intros [= <- <- <-]; simpl;
      rewrite ?length_replace_by_id; repeat split; try done; try lia.
    + by apply (find_replace_by_id _ c).
    + congruence.
  - simpl. intros [= <- <- <-]. simpl. rewrite find_snoc, Hfind, length_app. simpl.
    assert (send_query userFrom userTo
              (mkConversation (nextId w) userFrom userTo PENDING None) = true) as ->.
    { apply send_query_spec. by right. }
    repeat split; try done. lia.
Qed.

Lemma resolveConversation_thrown (userFrom userTo : ObjectId) (e : Exn) (w w1 : World) :
  resolveConversation userFrom userTo w = (Thrown e, w1) →
  w1 = w ∧ e = Error "Conversation request rejected!|||400" ∧
  ∃ c, find (send_query userFrom userTo) (conversations w) = Some c ∧ c_status c = REJECTED.
Proof.
  rewrite resolveConversation_run.
  destruct (find _ (conversations w)) as [c|] eqn:Hfind; [|done].
  repeat case_bool_decide; intros [= <- <-]; repeat split. by exists c.
Qed.

(* ===================================================================== *)
(** ** Persisting the message and fanning out *)
(* ===================================================================== *)

Lemma emitted_app (e1 e2 : list Effect) (w : World) :
  emitted e2 (emitted e1 w) = emitted (e1 ++ e2) w.
Proof. unfold emitted, with_outbox. simpl. by rewrite app_assoc. Qed.

Lemma await_run (eff : Effect) (answer : option Exn) (w : World) :
  await eff answer w =
  (match answer with None => Returned tt | Some e => Thrown e end, emitted [eff] w).
Proof. unfold await. rewrite bind_run. simpl. by destruct answer. Qed.

Lemma persist_run (params : SendParams) (conversation : ObjectId)
    (conversationExists : Conversation) (w : World) :
  ∃ message,
    persist params conversation conversationExists w =
      (Returned message,
       with_conversations (replace_by_id (set_lastMessage (m_id message) conversationExists))
         (with_nextId N.succ (with_messages (λ l, l ++ [message]) w))) ∧
    m_id message = nextId w ∧
    m_userFrom message = Some (s_userFrom params) ∧
    m_userTo message = Some (s_userTo params) ∧
    m_conversation message = Some conversation ∧
    m_status message = SENT.
Proof.
  destruct (addMessage_run
              (mkAddMessageParams (Some (s_userFrom params)) (Some (s_userTo params))
                 (s_text params) (s_attachments params) (Some conversation)) w)
    as (message & Hrun & Hid & Huf & Hut & Hc & _ & _ & Hs & _).
  exists message. unfold persist. rewrite bind_run, Hrun. simpl in *.
  by repeat split.
Qed.

Section fanout_facts.
Context `{Transports}.

Lemma fanout_run (username : option string) (message : Message) (userTo : ObjectId)
    (w : World) :
  m_userTo message = Some userTo →
  fanout username message w =
  let emit := emitArgs_of message (toString userTo) in
  let record := notificationObj_of message in
  match emitEvent emit with
  | Some e => (Thrown e, emitted [Emitted emit] w)
  | None =>
      match addNotification record with
      | Some e => (Thrown e, emitted [Emitted emit; NotificationAdded record] w)
      | None =>
          match find (λ u, bool_decide (Some (u_id u) = Some userTo)) (users w) with
          | None =>
              (Thrown (TypeError "Cannot read properties of null (reading 'fcms')"),
               emitted [Emitted emit; NotificationAdded record] w)
          | Some u =>
              let push := notifyArgs_of username u in
              (match notify push with None => Returned tt | Some e => Thrown e end,
               emitted [Emitted emit; NotificationAdded record; Notified push] w)
          end
      end
  end.
Proof.
  intros Hut. unfold fanout. rewrite Hut. rewrite ret_bind_run.
  rewrite bind_run, await_run.
  destruct (emitEvent _) as [e|]; simpl; [done|].
  rewrite bind_run, await_run, emitted_app.
  destruct (addNotification _) as [e|]; simpl; [done|].
  rewrite bind_run. unfold usersModel_findById, gets. simpl.
  destruct (find _ _) as [u|]; [|done].
  by rewrite await_run, emitted_app.
Qed.

(** The fan-out writes nothing but the record of its calls. *)
Lemma fanout_store (username : option string) (message : Message) (w : World) :
  ∃ effs, (fanout username message w).2 = emitted effs w.
Proof.
  destruct (m_userTo message) as [userTo|] eqn:Hut.
  - rewrite (fanout_run _ _ userTo) by done. simpl.
    repeat (case_match; simpl); by eexists.
  - unfold fanout. rewrite Hut. exists []. unfold emitted, with_outbox.
    rewrite throw_bind_run. simpl. rewrite app_nil_r. by destruct w.
Qed.

(** What [send] leaves in the store, whether its fan-out succeeds or not. *)
Lemma send_store (params : SendParams) (w : World) :
  match resolveConversation (s_userFrom params) (s_userTo params) w with
  | (Thrown e, w1) => send params w = (Thrown e, w1)
  | (Returned (conversation, conversationExists), w1) =>
      ∃ message effs,
        persist params conversation conversationExists w1 =
          (Returned message,
           with_conversations
             (replace_by_id (set_lastMessage (m_id message) conversationExists))
             (with_nextId N.succ (with_messages (λ l, l ++ [message]) w1))) ∧
        m_id message = nextId w1 ∧
        m_conversation message = Some conversation ∧
        (send params w).2 =
          emitted effs
            (with_conversations
               (replace_by_id (set_lastMessage (m_id message) conversationExists))
               (with_nextId N.succ (with_messages (λ l, l ++ [message]) w1))) ∧
        (∀ reply, (send params w).1 = Returned reply → data reply = message)
  end.
Proof.
  rewrite send_steps, bind_run.
  destruct (resolveConversation _ _ w) as [[[conversation ce]|e] w1]; [|done].
  destruct (persist_run params conversation ce w1)
    as (message & Hrun & Hid & _ & _ & Hc & _).
  exists message. rewrite bind_run, Hrun, bind_run.
  destruct (fanout_store (s_username params) message
              (with_conversations (replace_by_id (set_lastMessage (m_id message) ce))
                 (with_nextId N.succ (with_messages (λ l, l ++ [message]) w1))))
    as [effs Heffs].
  exists effs.
  destruct (fanout _ _ _) as [[[]|e] w3]; simpl in *; subst w3; repeat split; try done.
  by intros reply [= <-].
Qed.
End fanout_facts.

(* ===================================================================== *)
(** ** Properties of [send] *)
(* ===================================================================== *)

Section send_properties.
Context `{Transports}.

(** C1: a [send] whose conversation lookup (symmetric in the pair) finds
    a REJECTED conversation throws the ConversationBlocked error before
    any write: the store after the call is the store before it, so no
    message is created, no conversation changes status or last message,
    and no collaborator is called. *)
Theorem send_into_rejected_is_blocked (params : SendParams) (w : World)
    (c : Conversation) :
  find (send_query (s_userFrom params) (s_userTo params)) (conversations w) = Some c ∨
  find (send_query (s_userTo params) (s_userFrom params)) (conversations w) = Some c →
  c_status c = REJECTED →
  send params w = (Thrown (Error "Conversation request rejected!|||400"), w) ∧
  kind (Error "Conversation request rejected!|||400") = ConversationBlocked ∧
  messages (send params w).2 = messages w ∧
  conversations (send params w).2 = conversations w ∧
  outbox (send params w).2 = outbox w.
Proof.
  intros Hfind Hst.
  assert (Hfind' :
    find (send_query (s_userFrom params) (s_userTo params)) (conversations w) = Some c).
  { destruct Hfind as [?|Hfind]; [done|]. by rewrite find_send_query_sym. }
  assert (Hsend : send params w = (Thrown (Error "Conversation request rejected!|||400"), w)).
  { pose proof (send_store params w) as Hstore.
    rewrite resolveConversation_run, Hfind', Hst in Hstore. exact Hstore. }
  rewrite Hsend. by repeat split.
Qed.

(** C3: resolving the conversation of a pair fails only on a rejected
    conversation, and then writes nothing. When it returns an identity it
    has added at most one conversation, and resolving again with the pair
    in either order, immediately or after the rest of the [send] has run,
    returns the same identity and adds no conversation. The message of a
    returning [send] carries that identity. *)
Theorem resolve_twice_same_conversation (params : SendParams) (w : World) :
  match resolveConversation (s_userFrom params) (s_userTo params) w with
  | (Thrown e, w1) =>
      w1 = w ∧ kind e = ConversationBlocked ∧ send params w = (Thrown e, w)
  | (Returned (conversation, _), w1) =>
      (length (conversations w1) ≤ S (length (conversations w)))%nat ∧
      (∀ reply, (send params w).1 = Returned reply →
                m_conversation (data reply) = Some conversation) ∧
      length (conversations (send params w).2) = length (conversations w1) ∧
      ∀ userFrom' userTo',
        (userFrom', userTo') = (s_userFrom params, s_userTo params) ∨
        (userFrom', userTo') = (s_userTo params, s_userFrom params) →
        (∃ c' w2,
           resolveConversation userFrom' userTo' w1 = (Returned (conversation, c'), w2) ∧
           length (conversations w2) = length (conversations w1)) ∧
        (∃ c' w2,
           resolveConversation userFrom' userTo' (send params w).2
             = (Returned (conversation, c'), w2) ∧
           length (conversations w2) = length (conversations w1))
  end.
Proof.
  pose proof (send_store params w) as Hstore.
  destruct (resolveConversation _ _ w) as [[[conversation ce]|e] w1] eqn:Hres.
  - apply resolveConversation_found in Hres as (Hfind & Hid & Hst & Hlen).
    destruct Hstore as (message & effs & _ & _ & Hconv & Hw' & Hreply).
    split; [done|]. split; [|split].
    + intros reply Hr. by rewrite (Hreply reply Hr).
    + rewrite Hw'. simpl. by rewrite length_replace_by_id.
    + intros uf' ut' Hpair. split.
      * rewrite <- Hid. by eapply resolveConversation_reuse.
      * rewrite <- Hid.
        change (c_id ce) with (c_id (set_lastMessage (m_id message) ce)).
        destruct (resolveConversation_reuse (s_userFrom params) (s_userTo params) uf' ut'
                    (set_lastMessage (m_id message) ce) (send params w).2)
          as (c' & w2 & Hres' & Hlen'); try done.
        { rewrite Hw'. simpl. apply (find_replace_by_id _ ce); [done| |done].
          rewrite send_query_set_lastMessage. by apply find_elem_of in Hfind as [_ ?]. }
        exists c', w2. split; [done|].
        rewrite Hlen', Hw'. simpl. by rewrite length_replace_by_id.
  - apply resolveConversation_thrown in Hres as (-> & -> & _).
    by repeat split.
Qed.

(** C4 (as amended): after the message is persisted and the conversation
    points at it, the three channel actions are awaited one after the
    other - real-time emit, notification record, push - with no handler
    around them. A failure of one of them is the outcome of [send] and the
    later channels are not attempted; the message and the last-message
    pointer written before stay in the store. When the three succeed and
    the recipient's user record exists, [send] returns the persisted
    message. *)
Theorem send_fanout_sequential (params : SendParams) (w w1 : World)
    (conversation : ObjectId) (conversationExists : Conversation) :
  resolveConversation (s_userFrom params) (s_userTo params) w
    = (Returned (conversation, conversationExists), w1) →
  ∃ message w2,
    persist params conversation conversationExists w1 = (Returned message, w2) ∧
    message ∈ messages w2 ∧
    c_lastMessage <$> find (by_id conversation) (conversations w2)
      = Some (Some (m_id message)) ∧
    let emit := emitArgs_of message (toString (s_userTo params)) in
    let record := notificationObj_of message in
    match emitEvent emit with
    | Some e => send params w = (Thrown e, emitted [Emitted emit] w2)
    | None =>
        match addNotification record with
        | Some e =>
            send params w = (Thrown e, emitted [Emitted emit; NotificationAdded record] w2)
        | None =>
            match find (λ u, bool_decide (Some (u_id u) = Some (s_userTo params)))
                    (users w) with
            | None =>
                send params w =
                  (Thrown (TypeError "Cannot read properties of null (reading 'fcms')"),
                   emitted [Emitted emit; NotificationAdded record] w2)
            | Some u =>
                let push := notifyArgs_of (s_username params) u in
                send params w =
                  (match notify push with
                   | None => Returned (mkReply true message)
                   | Some e => Thrown e
                   end,
                   emitted [Emitted emit; NotificationAdded record; Notified push] w2)
            end
        end
    end.
Proof.
  intros Hres.
  destruct (persist_run params conversation conversationExists w1)
    as (message & Hrun & Hid & Huf & Hut & Hc & Hs).
  eexists message, _. split; [exact Hrun|].
  split; [simpl; apply elem_of_app; right; by apply list_elem_of_singleton|].
  split.
  { simpl. apply resolveConversation_found in Hres as (Hfind & Hcid & _ & _).
    apply find_elem_of in Hfind as [Hin _].
    rewrite <- Hcid.
    change (c_id conversationExists)
      with (c_id (set_lastMessage (m_id message) conversationExists)).
    rewrite find_by_id_replace; [done|].
    apply Exists_exists. by exists conversationExists. }
  assert (Husers : users w1 = users w).
  { rewrite resolveConversation_run in Hres.
    destruct (find _ (conversations w)); repeat case_bool_decide; simpl in Hres;
      by inversion Hres. }
  rewrite send_steps, bind_run, Hres, bind_run, Hrun, bind_run.
  rewrite (fanout_run _ _ (s_userTo params)) by done.
  simpl. rewrite Husers.
  destruct (emitEvent _); [done|].
  destruct (addNotification _); [done|].
  destruct (find _ (users w)); [|done].
  by destruct (notify _).
Qed.
End send_properties.

(** A witness of C1: Bob writes into the conversation he rejected. *)
Lemma send_into_rejected_is_blocked_witness :
  @send quiet bob_to_ann rejected_world
    = (Thrown (Error "Conversation request rejected!|||400"), rejected_world) ∧
  kind (Error "Conversation request rejected!|||400") = ConversationBlocked ∧
  messages (@send quiet bob_to_ann rejected_world).2 = messages rejected_world ∧
  conversations (@send quiet bob_to_ann rejected_world).2 = conversations rejected_world ∧
  outbox (@send quiet bob_to_ann rejected_world).2 = outbox rejected_world.
Proof.
  apply (@send_into_rejected_is_blocked quiet bob_to_ann rejected_world
           (mkConversation 7%N 1%N 2%N REJECTED None)).
  - left. reflexivity.
  - reflexivity.
Defined.

(** C4 fails as stated: when the real-time emit rejects, [send] throws that
    failure instead of returning the message, and neither the notification
    record nor the push is attempted. *)
Lemma send_fails_when_emit_fails :
  (@send socket_down ann_to_bob fresh_world).1 = Thrown (TransportError "socket unavailable") ∧
  channel_of <$> outbox (@send socket_down ann_to_bob fresh_world).2 = [RealTime] ∧
  length (messages (@send socket_down ann_to_bob fresh_world).2) = 1%nat.
Proof. vm_compute. by repeat split. Qed.

(** A witness of C3: Ann writes to Bob for the first time, then the pair is
    resolved again the other way round. *)
Lemma resolve_twice_same_conversation_witness :
  ∃ c' w2,
    resolveConversation 2%N 1%N (resolveConversation 1%N 2%N fresh_world).2
      = (Returned (100%N, c'), w2) ∧
    length (conversations w2) = 1%nat.
Proof.
  pose proof (@resolve_twice_same_conversation quiet ann_to_bob fresh_world) as W.
  assert (E : resolveConversation (s_userFrom ann_to_bob) (s_userTo ann_to_bob) fresh_world
              = (Returned (100%N, mkConversation 100%N 1%N 2%N PENDING None),
                 (resolveConversation 1%N 2%N fresh_world).2)) by reflexivity.
  rewrite E in W. destruct W as (_ & _ & _ & Hagain).
  destruct (Hagain 2%N 1%N (or_intror eq_refl)) as [Himmediately _].
  exact Himmediately.
Defined.

(** A witness of C4 (as amended): with transports that accept every call,
    Ann's first message to Bob is returned and the three channels were
    called in order. *)
Lemma send_fanout_sequential_witness :
  (∃ reply, (@send quiet ann_to_bob fresh_world).1 = Returned reply) ∧
  channel_of <$> outbox (@send quiet ann_to_bob fresh_world).2 = [RealTime; Durable; Push].
Proof.
  destruct (@send_fanout_sequential quiet ann_to_bob fresh_world
              (resolveConversation 1%N 2%N fresh_world).2 100%N
              (mkConversation 100%N 1%N 2%N PENDING None) eq_refl)
    as (message & w2 & Hpersist & _ & _ & Hsend).
  vm_compute in Hpersist. injection Hpersist as <- <-.
  simpl in Hsend. rewrite Hsend. split; [by eexists|reflexivity].
Defined.

(* ===================================================================== *)
(** ** The life cycle of a conversation *)
(* ===================================================================== *)

Lemma addMessage_conversations (params : AddMessageParams) (w : World) :
  conversations (addMessage params w).2 = conversations w.
Proof. by destruct (addMessage_run params w) as (message & -> & _). Qed.

Lemma getMessages_store (params : GetMessagesParams) (w : World) :
  (getMessages params w).2 = w.
Proof.
  unfold getMessages. rewrite bind_run.
  destruct (gm_conversation params); [|destruct (gm_user1 params), (gm_user2 params)];
    simpl; try done; rewrite bind_run; unfold aggregate; by destruct (paginate _ _ _).
Qed.

Lemma updateMessage_conversations (params : UpdateMessageParams) (w : World) :
  conversations (updateMessage params w).2 = conversations w.
Proof.
  unfold updateMessage, messagesModel_findByIdAndUpdate.
  destruct (um_message params); [|done]. rewrite bind_run.
  by destruct (list_find _ _) as [[i m]|].
Qed.

Lemma deleteMessage_conversations (message : option ObjectId) (w : World) :
  conversations (deleteMessage message w).2 = conversations w.
Proof.
  unfold deleteMessage, messagesModel_findByIdAndDelete.
  destruct message; [|done]. rewrite bind_run.
  by destruct (list_find _ _) as [[i m]|].
Qed.

Lemma readMessages_conversations (params : ReadMessagesParams) (w : World) :
  conversations (readMessages params w).2 = conversations w.
Proof.
  unfold readMessages, usersModel_exists, conversationsModel_exists, messagesModel_updateMany.
  destruct (rm_userTo params); [|done]. rewrite bind_run. unfold gets at 1.
  case_bool_decide; [|done].
  destruct (rm_conversation params); [|done]. rewrite bind_run. unfold gets at 1.
  by case_bool_decide.
Qed.

Section listing_store.
Context `{RegexEngine}.

Lemma getConversations_store (params : GetConversationsParams) (w : World) :
  (getConversations params w).2 = w.
Proof.
  unfold getConversations. rewrite bind_run. unfold aggregate.
  by destruct (paginate _ _ _).
Qed.
End listing_store.

Section life_cycle.
Context `{Transports}.

(** After a [send] whose resolution returned, the stored conversation is
    the resolved document pointing at the new message. *)
Lemma send_resolved (params : SendParams) (w w1 : World) (conversation : ObjectId)
    (conversationExists : Conversation) :
  resolveConversation (s_userFrom params) (s_userTo params) w
    = (Returned (conversation, conversationExists), w1) →
  ∃ message,
    conversations (send params w).2 =
      replace_by_id (set_lastMessage (m_id message) conversationExists) (conversations w1) ∧
    find (send_query (s_userFrom params) (s_userTo params)) (conversations (send params w).2)
      = Some (set_lastMessage (m_id message) conversationExists) ∧
    status_of conversation (send params w).2 = Some (c_status conversationExists).
Proof.
  intros Hres. pose proof (send_store params w) as Hstore. rewrite Hres in Hstore.
  destruct Hstore as (message & effs & _ & _ & _ & Hw' & _).
  apply resolveConversation_found in Hres as (Hfind & Hid & _ & _).
  exists message. rewrite Hw'. simpl. split; [done|]. split.
  - apply (find_replace_by_id _ conversationExists); [done| |done].
    rewrite send_query_set_lastMessage. by apply find_elem_of in Hfind as [_ ?].
  - unfold status_of. simpl. rewrite <- Hid.
    change (λ c, bool_decide (c_id c = c_id conversationExists))
      with (by_id (c_id (set_lastMessage (m_id message) conversationExists))).
    rewrite find_by_id_replace; [done|].
    apply find_elem_of in Hfind as [Hin _].
    apply Exists_exists. by exists conversationExists.
Qed.

Lemma send_status_found (params : SendParams) (w : World) (c : Conversation) :
  find (send_query (s_userFrom params) (s_userTo params)) (conversations w) = Some c →
  c_status c ≠ REJECTED →
  ∃ c',
    find (send_query (s_userFrom params) (s_userTo params)) (conversations (send params w).2)
      = Some c' ∧
    c_id c' = c_id c ∧
    c_status c' =
      (if bool_decide (c_status c = PENDING) && bool_decide (s_userFrom params = c_userTo c)
       then ACCEPTED else c_status c) ∧
    status_of (c_id c) (send params w).2 = Some (c_status c').
Proof.
  intros Hfind Hst.
  pose proof (resolveConversation_run (s_userFrom params) (s_userTo params) w) as Hres.
  rewrite Hfind in Hres.
  repeat case_bool_decide; try done; simpl;
    destruct (send_resolved _ _ _ _ _ Hres) as (message & _ & Hfind' & Hstatus);
    eexists; (split; [exact Hfind'|]); by repeat split.
Qed.
End life_cycle.

Lemma status_of_conversations (id : ObjectId) (w w' : World) :
  conversations w' = conversations w → status_of id w' = status_of id w.
Proof. unfold status_of. by intros ->. Qed.

(** Resolution leaves the status of every other conversation alone. *)
Lemma resolveConversation_status_other (userFrom userTo conversation id : ObjectId)
    (conversationExists : Conversation) (w w1 : World) :
  resolveConversation userFrom userTo w = (Returned (conversation, conversationExists), w1) →
  id ≠ conversation →
  status_of id w1 = status_of id w.
Proof.
  rewrite resolveConversation_run. unfold status_of.
  change (λ c, bool_decide (c_id c = id)) with (by_id id).
  destruct (find _ (conversations w)) as [c|].
  - repeat case_bool_decide; intros [= <- <- <-] Hne; simpl; try done.
    by rewrite find_by_id_replace_ne.
  - simpl. intros [= <- <- <-] Hne. simpl. rewrite find_snoc.
    destruct (find (by_id id) (conversations w)); [done|].
    unfold by_id. simpl. by rewrite bool_decide_false.
Qed.

Section pending.
Context `{Transports} `{RegexEngine}.

Lemma send_status_other (params : SendParams) (w w1 : World) (conversation id : ObjectId)
    (conversationExists : Conversation) :
  resolveConversation (s_userFrom params) (s_userTo params) w
    = (Returned (conversation, conversationExists), w1) →
  id ≠ conversation →
  status_of id (send params w).2 = status_of id w.
Proof.
  intros Hres Hne.
  rewrite <- (resolveConversation_status_other _ _ _ _ _ _ _ Hres Hne).
  destruct (send_resolved _ _ _ _ _ Hres) as (message & Hconv & _ & _).
  apply resolveConversation_found in Hres as (_ & Hid & _ & _).
  unfold status_of. rewrite Hconv.
  change (λ c, bool_decide (c_id c = id)) with (by_id id).
  rewrite find_by_id_replace_ne; [done|]. simpl. congruence.
Qed.

(** Every operation but [send] leaves the conversations as they are. *)
Lemma run_conversations (op : Operation) (w : World) :
  (∀ params, op ≠ OpSend params) → conversations (run op w) = conversations w.
Proof.
  intros Hop. destruct op as [p|p|p|m|p|p|p]; unfold run.
  - apply addMessage_conversations.
  - by rewrite getMessages_store.
  - apply updateMessage_conversations.
  - apply deleteMessage_conversations.
  - by rewrite getConversations_store.
  - by destruct (Hop p).
  - apply readMessages_conversations.
Qed.

(** C2 (as amended): when the lookup of a [send] finds a PENDING
    conversation and the sender is its stored [userTo], the stored status
    becomes ACCEPTED (and stays ACCEPTED after a further [send] by either
    party); when the sender is its initiator - the stored [userFrom] - and
    the initiator is not also the stored [userTo], the status stays
    PENDING; a [send] into an ACCEPTED conversation leaves it ACCEPTED.
    Among all the operations of the controller, the only one after which a
    PENDING conversation is no longer PENDING is such a [send] by the
    stored recipient. *)
Theorem pending_accepted_only_by_reply :
  (∀ (params : SendParams) (w : World) (c : Conversation),
     find (send_query (s_userFrom params) (s_userTo params)) (conversations w) = Some c →
     (c_status c = PENDING → s_userFrom params = c_userTo c →
      status_of (c_id c) (send params w).2 = Some ACCEPTED ∧
      ∀ params' : SendParams,
        (s_userFrom params', s_userTo params') = (s_userFrom params, s_userTo params) ∨
        (s_userFrom params', s_userTo params') = (s_userTo params, s_userFrom params) →
        status_of (c_id c) (send params' (send params w).2).2 = Some ACCEPTED) ∧
     (c_status c = PENDING →
      s_userFrom params = c_userFrom c → c_userFrom c ≠ c_userTo c →
      status_of (c_id c) (send params w).2 = Some PENDING) ∧
     (c_status c = ACCEPTED →
      status_of (c_id c) (send params w).2 = Some ACCEPTED)) ∧
  (∀ (op : Operation) (w : World) (id : ObjectId),
     NoDup (c_id <$> conversations w) →
     status_of id w = Some PENDING →
     status_of id (run op w) ≠ Some PENDING →
     ∃ params c,
       op = OpSend params ∧
       find (send_query (s_userFrom params) (s_userTo params)) (conversations w) = Some c ∧
       c_id c = id ∧ c_status c = PENDING ∧ s_userFrom params = c_userTo c ∧
       status_of id (run op w) = Some ACCEPTED).
Proof.
  split.
  - intros params w c Hfind. split; [|split].
    + intros Hst Hfrom.
      destruct (send_status_found params w c Hfind) as (c' & Hfind' & Hid' & Hst' & Hstatus).
      { congruence. }
      rewrite Hst, !bool_decide_true in Hst' by done. simpl in Hst'.
      split; [congruence|].
      intros params' Hpair.
      assert (Hfind'' :
        find (send_query (s_userFrom params') (s_userTo params'))
          (conversations (send params w).2) = Some c').
      { destruct Hpair as [[= -> ->]|[= -> ->]]; [done|]. by rewrite find_send_query_sym. }
      destruct (send_status_found params' _ c' Hfind'') as (c'' & _ & _ & Hst'' & Hstatus').
      { congruence. }
      rewrite Hst' in Hst''. simpl in Hst''. congruence.
    + intros Hst Hfrom Hdistinct.
      destruct (send_status_found params w c Hfind) as (c' & _ & _ & Hst' & Hstatus).
      { congruence. }
      rewrite Hst, (bool_decide_false (s_userFrom params = _)), andb_false_r in Hst'
        by congruence.
      congruence.
    + intros Hst.
      destruct (send_status_found params w c Hfind) as (c' & _ & _ & Hst' & Hstatus).
      { congruence. }
      rewrite Hst in Hst'. simpl in Hst'. congruence.
  - intros op w id Hnodup Hpending Hleft.
    destruct op as [p|p|p|m|p|params|p];
      try (exfalso; apply Hleft; rewrite <- Hpending;
           apply status_of_conversations, run_conversations; by intros ?).
    unfold run in *.
    destruct (resolveConversation (s_userFrom params) (s_userTo params) w)
      as [[[conversation ce]|e] w1] eqn:Hres.
    + destruct (decide (id = conversation)) as [->|Hne].
      2: { exfalso. apply Hleft. by rewrite (send_status_other _ _ _ _ _ _ Hres Hne). }
      pose proof Hres as Hres'. rewrite resolveConversation_run in Hres'.
      destruct (find _ (conversations w)) as [c|] eqn:Hfind.
      * assert (Hid : c_id c = conversation).
        { repeat case_bool_decide; by inversion Hres'. }
        assert (Hst : c_status c = PENDING).
        { apply find_elem_of in Hfind as [Hin _].
          unfold status_of in Hpending. rewrite <- Hid in Hpending.
          change (λ c0, bool_decide (c_id c0 = c_id c)) with (by_id (c_id c)) in Hpending.
          rewrite (find_by_id_NoDup c) in Hpending by done. by inversion Hpending. }
        destruct (send_status_found params w c Hfind) as (c' & _ & _ & Hst' & Hstatus).
        { congruence. }
        rewrite Hid in Hstatus. rewrite Hst in Hst'.
        rewrite bool_decide_true in Hst' by done. simpl in Hst'.
        case_bool_decide as Hfrom.
        -- exists params, c. rewrite Hstatus, Hst'. by repeat split.
        -- exfalso. apply Hleft. by rewrite Hstatus, Hst'.
      * exfalso. apply Hleft.
        destruct (send_resolved _ _ _ _ _ Hres) as (message & _ & _ & ->).
        simpl in Hres'. by inversion Hres'.
    + exfalso. apply Hleft.
      pose proof (send_store params w) as Hstore. rewrite Hres in Hstore.
      apply resolveConversation_thrown in Hres as (-> & _ & _).
      by rewrite Hstore.
Qed.
End pending.

(** A witness of C2: Bob answers Ann's pending request. *)
Lemma pending_accepted_only_by_reply_witness :
  status_of 7%N (@send quiet bob_to_ann pending_world).2 = Some ACCEPTED.
Proof.
  destruct (@pending_accepted_only_by_reply quiet literal_regex) as [Hsend _].
  destruct (Hsend bob_to_ann pending_world (mkConversation 7%N 1%N 2%N PENDING (Some 8%N))
              eq_refl) as (Hreply & _ & _).
  exact (proj1 (Hreply eq_refl eq_refl)).
Defined.

(** C2 fails as stated: a user who wrote to themself is the initiator of
    the conversation and its stored recipient; the conversation their first
    message creates is PENDING, and their next message, a send by the
    original initiator, accepts it. *)
Lemma initiator_accepts_own_request :
  ∃ c,
    conversations (@send quiet ann_to_ann fresh_world).2 = [c] ∧
    c_status c = PENDING ∧ c_userFrom c = s_userFrom ann_to_ann ∧
    status_of (c_id c) (@send quiet ann_to_ann (@send quiet ann_to_ann fresh_world).2).2
      = Some ACCEPTED.
Proof. eexists. split; [reflexivity|]. by repeat split. Qed.

(* ===================================================================== *)
(** ** The store invariant *)
(* ===================================================================== *)

Lemma fresh_NoDup (ids : list ObjectId) (next : ObjectId) :
  NoDup ids → Forall (λ id, (id < next)%N) ids → NoDup (ids ++ [next]).
Proof.
  intros Hnd Hlt. apply NoDup_app. split; [done|]. split; [|apply NoDup_singleton].
  intros id Hid ->%list_elem_of_singleton.
  rewrite Forall_forall in Hlt. specialize (Hlt _ Hid). lia.
Qed.

Lemma fresh_bound (ids : list ObjectId) (next : ObjectId) :
  Forall (λ id, (id < next)%N) ids → Forall (λ id, (id < N.succ next)%N) (ids ++ [next]).
Proof.
  intros Hlt. apply Forall_app. split.
  - eapply Forall_impl; [exact Hlt|]. simpl. lia.
  - apply Forall_singleton. lia.
Qed.

Lemma older_bound (ids : list ObjectId) (next : ObjectId) :
  Forall (λ id, (id < next)%N) ids → Forall (λ id, (id < N.succ next)%N) ids.
Proof. intros Hlt. eapply Forall_impl; [exact Hlt|]. simpl. lia. Qed.

Lemma replace_by_id_ids (c : Conversation) (l : list Conversation) :
  c_id <$> replace_by_id c l = c_id <$> l.
Proof.
  unfold replace_by_id. induction l as [|d l IH]; [done|].
  rewrite !fmap_cons, IH. by case_bool_decide; simpl; f_equal.
Qed.

(** A store with the same identities and the same fresh identity. *)
Lemma well_formed_same_ids (w w' : World) :
  well_formed w →
  c_id <$> conversations w' = c_id <$> conversations w →
  m_id <$> messages w' = m_id <$> messages w →
  users w' = users w →
  nextId w' = nextId w →
  well_formed w'.
Proof. unfold well_formed. by intros ? -> -> -> ->. Qed.

Lemma well_formed_new_message (m : Message) (w : World) :
  well_formed w → m_id m = nextId w →
  well_formed (with_nextId N.succ (with_messages (λ l, l ++ [m]) w)).
Proof.
  intros (Hc & Hm & Hu & Hcb & Hmb) Hid. unfold well_formed. simpl.
  rewrite fmap_app. simpl. rewrite Hid.
  repeat split; auto using fresh_NoDup, fresh_bound, older_bound.
Qed.

Lemma well_formed_new_conversation (c : Conversation) (w : World) :
  well_formed w → c_id c = nextId w →
  well_formed (with_nextId N.succ (with_conversations (λ l, l ++ [c]) w)).
Proof.
  intros (Hc & Hm & Hu & Hcb & Hmb) Hid. unfold well_formed. simpl.
  rewrite fmap_app. simpl. rewrite Hid.
  repeat split; auto using fresh_NoDup, fresh_bound, older_bound.
Qed.

Lemma well_formed_save (c : Conversation) (w : World) :
  well_formed w → well_formed (with_conversations (replace_by_id c) w).
Proof.
  intros Hw. apply (well_formed_same_ids w); try done.
  simpl. apply replace_by_id_ids.
Qed.

Lemma well_formed_delete_message (i : nat) (w : World) :
  well_formed w → well_formed (with_messages (delete i) w).
Proof.
  intros (Hc & Hm & Hu & Hcb & Hmb). unfold well_formed. simpl.
  rewrite list_fmap_delete. repeat split; try done.
  - eapply sublist_NoDup; [exact Hm|]. apply sublist_delete.
  - by apply Forall_delete.
Qed.

Lemma set_fields_id (text : option string) (status : option MessageStatus) (m : Message) :
  m_id (set_message_status status (set_text text m)) = m_id m.
Proof. unfold set_message_status, set_text. by destruct status, (truthy_string text). Qed.

Section invariant.
Context `{Transports} `{RegexEngine}.

Lemma resolveConversation_well_formed (userFrom userTo : ObjectId) (w : World) :
  well_formed w → well_formed (resolveConversation userFrom userTo w).2.
Proof.
  intros Hw. rewrite resolveConversation_run.
  destruct (find _ (conversations w)) as [c|]; simpl.
  - repeat case_bool_decide; simpl; try done. by apply well_formed_save.
  - by apply well_formed_new_conversation.
Qed.

(** Every operation of the controller preserves the invariant. *)
Lemma run_well_formed (op : Operation) (w : World) :
  well_formed w → well_formed (run op w).
Proof.
  intros Hw. destruct op as [p|p|p|m|p|p|p]; unfold run.
  - destruct (addMessage_run p w) as (message & -> & Hid & _).
    by apply well_formed_new_message.
  - by rewrite getMessages_store.
  - unfold updateMessage, messagesModel_findByIdAndUpdate.
    destruct (um_message p); [|done]. rewrite bind_run.
    destruct (list_find _ _) as [[i m]|] eqn:Hfind; [|done].
    apply list_find_Some in Hfind as (Hi & _ & _).
    simpl. apply (well_formed_same_ids w); try done. simpl.
    rewrite list_fmap_insert, set_fields_id. apply list_insert_id.
    by rewrite list_lookup_fmap, Hi.
  - unfold deleteMessage, messagesModel_findByIdAndDelete.
    destruct m; [|done]. rewrite bind_run.
    destruct (list_find _ _) as [[i m]|]; [|done].
    simpl. by apply well_formed_delete_message.
  - by rewrite getConversations_store.
  - pose proof (send_store p w) as Hstore.
    pose proof (resolveConversation_well_formed (s_userFrom p) (s_userTo p) w Hw) as Hw1.
    destruct (resolveConversation _ _ w) as [[[conversation ce]|e] w1]; simpl in Hw1.
    + destruct Hstore as (message & effs & _ & Hid & _ & -> & _).
      apply (well_formed_same_ids
               (with_conversations (replace_by_id (set_lastMessage (m_id message) ce))
                  (with_nextId N.succ (with_messages (λ l, l ++ [message]) w1))));
        try done.
      apply (well_formed_save _ (with_nextId N.succ (with_messages _ w1))).
      by apply well_formed_new_message.
    + by rewrite Hstore.
  - unfold readMessages, usersModel_exists, conversationsModel_exists,
      messagesModel_updateMany.
    destruct (rm_userTo p); [|done]. rewrite bind_run. unfold gets at 1.
    case_bool_decide; [|done].
    destruct (rm_conversation p); [|done]. rewrite bind_run. unfold gets at 1.
    case_bool_decide; [|done].
    simpl. apply (well_formed_same_ids w); try done. simpl.
    rewrite <- list_fmap_compose. apply list_fmap_ext. intros i m _. simpl.
    by case_match.
Qed.
End invariant.

(* ===================================================================== *)
(** ** Pagination *)
(* ===================================================================== *)

#[global] Instance desc_total {D} (key : D → Z) : Total (desc key).
Proof. intros x y. unfold desc. lia. Qed.

#[global] Instance desc_trans {D} (key : D → Z) : Transitive (desc key).
Proof. intros x y z. unfold desc. lia. Qed.


Lemma stage_sort_desc_perm {D} (key : D → Z) (docs : list D) :
  stage_sort_desc key docs ≡ₚ docs.
Proof. apply merge_sort_Permutation. Qed.


(** With a non-negative page and limit the store accepts the pipeline. *)
Lemma effective_limit_pos (limit : option Z) :
  (0 ≤ default 0 limit)%Z → (0 < effective_limit limit)%Z.
Proof.
  unfold effective_limit, number_or, truthy_number.
  destruct limit as [l|]; simpl; [|lia]. intros Hl.
  case_bool_decide; simpl; lia.
Qed.

Lemma effective_page_nonneg (page : option Z) :
  (0 ≤ default 0 page)%Z → (0 ≤ effective_page page)%Z.
Proof.
  unfold effective_page, number_or, truthy_number.
  destruct page as [p|]; simpl; [|lia]. intros Hp.
  destruct (bool_decide_reflect (p = 0%Z)); simpl; try case_bool_decide; lia.
Qed.

(** The listing a valid pipeline tail produces. *)
Lemma listing_run {A} (page limit : Z) (docs : list A) :
  (0 ≤ page)%Z → (0 < limit)%Z →
  ∃ rows,
    paginate page limit docs = Returned rows ∧
    spread rows =
      mkListing true (take (Z.to_nat limit) (drop (Z.to_nat (page * limit)) docs))
        (Z.of_nat (length docs)) (ceil_divide (Z.of_nat (length docs)) limit).
Proof.
  intros Hp Hl. unfold paginate, stage_facet.
  rewrite decide_False by nia. rewrite decide_False by lia.
  eexists. split; [reflexivity|].
  destruct docs as [|d docs]; [|reflexivity].
  unfold spread, stage_unwind_project. simpl.
  by rewrite drop_nil, take_nil.
Qed.

(** A pipeline tail the store refuses does not produce an [Error] of the
    controller. *)
Lemma paginate_thrown {A} (page limit : Z) (docs : list A) (e : Exn) :
  paginate page limit docs = Thrown e → kind e = Unclassified.
Proof.
  unfold paginate, stage_facet. repeat case_decide; by intros [= <-].
Qed.

Lemma paginate_returned {A} (page limit : Z) (docs : list A) (rows : list (Page A)) :
  paginate page limit docs = Returned rows →
  spread rows =
    mkListing true (take (Z.to_nat limit) (drop (Z.to_nat (page * limit)) docs))
      (Z.of_nat (length docs)) (ceil_divide (Z.of_nat (length docs)) limit).
Proof.
  unfold paginate, stage_facet. repeat case_decide; try done. intros [= <-].
  destruct docs as [|d docs]; [|reflexivity].
  unfold spread, stage_unwind_project. simpl. by rewrite drop_nil, take_nil.
Qed.

Lemma getMessages_run (params : GetMessagesParams) (w : World) :
  getMessages params w =
  match getMessages_query params with
  | None => (Thrown (Error "Please enter conversation id!|||400"), w)
  | Some query =>
      match paginate (effective_page (gm_page params)) (effective_limit (gm_limit params))
              (project_message <$>
                 stage_sort_desc m_createdAt (stage_match query (messages w))) with
      | Returned rows => (Returned (spread rows), w)
      | Thrown e => (Thrown e, w)
      end
  end.
Proof.
  unfold getMessages, getMessages_query. rewrite bind_run.
  destruct (gm_conversation params); [|destruct (gm_user1 params), (gm_user2 params)];
    simpl; try done; rewrite bind_run; unfold aggregate;
    fold (effective_limit (gm_limit params)); fold (effective_page (gm_page params));
    by destruct (paginate _ _ _).
Qed.

Lemma getMessages_query_None (params : GetMessagesParams) :
  getMessages_query params = None ↔
  gm_conversation params = None ∧
  ¬ (is_Some (gm_user1 params) ∧ is_Some (gm_user2 params)).
Proof.
  unfold getMessages_query.
  destruct (gm_conversation params), (gm_user1 params), (gm_user2 params); simpl;
    (split;
     [ intros Hq; try discriminate Hq; (split; [done|]);
       intros [[x Hx] [y Hy]]; discriminate
     | intros [Hc Hn]; try discriminate Hc; try reflexivity;
       exfalso; apply Hn; split; eexists; reflexivity ]).
Qed.

(** The match document of a well-addressed request selects the messages
    the request addresses. *)
Lemma getMessages_query_addressed (params : GetMessagesParams) :
  well_addressed params →
  ∃ query, getMessages_query params = Some query ∧
           ∀ m, query m = true ↔ addressed params m.
Proof.
  unfold well_addressed, getMessages_query, addressed.
  destruct (gm_conversation params) as [conversation|].
  - intros _. eexists. split; [reflexivity|]. intros m. unfold q_eq.
    by rewrite bool_decide_eq_true.
  - intros [[? [=]]|[[user1 ->] [user2 ->]]].
    eexists. split; [reflexivity|]. intros m. unfold q_or, q_and, q_eq. simpl.
    rewrite !orb_true_iff, !andb_true_iff, !bool_decide_eq_true.
    intuition discriminate.
Qed.

Lemma stage_match_filter {D} (query : Filter D) (P : D → Prop) `{∀ d, Decision (P d)}
    (docs : list D) :
  (∀ d, query d = true ↔ P d) → stage_match query docs = filter P docs.
Proof.
  intros Hq. unfold stage_match. apply list_filter_iff. intros d.
  by rewrite Is_true_true.
Qed.




(** The reply of a well-addressed [getMessages] the store accepts. *)
Lemma getMessages_returns (params : GetMessagesParams) (w : World) (query : Filter Message) :
  let page := effective_page (gm_page params) in
  let limit := effective_limit (gm_limit params) in
  let sorted := stage_sort_desc m_createdAt (stage_match query (messages w)) in
  getMessages_query params = Some query →
  (0 ≤ page)%Z → (0 < limit)%Z →
  getMessages params w =
    (Returned
       (mkListing true
          (project_message <$> take (Z.to_nat limit) (drop (Z.to_nat (page * limit)) sorted))
          (Z.of_nat (length sorted)) (ceil_divide (Z.of_nat (length sorted)) limit)), w).
Proof.
  intros page limit sorted Hquery Hp Hl. rewrite getMessages_run, Hquery.
  fold page limit sorted.
  destruct (listing_run page limit (project_message <$> sorted)) as (rows & -> & ->);
    [done..|].
  by rewrite length_fmap, fmap_take, fmap_drop.
Qed.




(** C7 fails as stated: a well-addressed query that matches nothing, asked
    for page -1, does not return the empty listing; the controller hands
    [$skip: -20] to the store, which refuses it. *)
Lemma getMessages_negative_page_fails :
  getMessages (mkGetMessagesParams (Some 7%N) (Some (-1)%Z) None None None) empty_world
  = (Thrown (MongoServerError "$skip"), empty_world).
Proof. reflexivity. Qed.

(** C7 (as amended): [getMessages] fails with [InvalidArgument] exactly
    when neither a conversation id nor both users of a pair are supplied; a
    well-addressed query whose page and limit are absent or not negative
    and that addresses no stored message returns empty data, [totalCount] 0
    and [totalPages] 0; a well-addressed query with a negative page or
    limit fails, whatever it addresses, with the error of the store, which
    is not an [InvalidArgument]. *)
Theorem getMessages_addressing :
  (∀ (params : GetMessagesParams) (w : World),
     (∃ e, (getMessages params w).1 = Thrown e ∧ kind e = InvalidArgument) ↔
     (gm_conversation params = None ∧
      ¬ (is_Some (gm_user1 params) ∧ is_Some (gm_user2 params)))) ∧
  (∀ (params : GetMessagesParams) (w : World),
     well_addressed params →
     (0 ≤ default 0 (gm_page params))%Z →
     (0 ≤ default 0 (gm_limit params))%Z →
     Forall (λ m, ¬ addressed params m) (messages w) →
     getMessages params w = (Returned (mkListing true [] 0 0), w)) ∧
  (∀ (params : GetMessagesParams) (w : World),
     well_addressed params →
     (default 0 (gm_page params) < 0)%Z ∨ (default 0 (gm_limit params) < 0)%Z →
     ∃ e, getMessages params w = (Thrown e, w) ∧ kind e = Unclassified).
Proof.
  split; [|split].
  - intros params w. rewrite <- getMessages_query_None, getMessages_run.
    destruct (getMessages_query params) as [query|]; simpl.
    + split; [|done]. intros (e & He & Hk). exfalso.
      destruct (paginate _ _ _) as [rows|e'] eqn:Hp; simpl in He; [done|].
      injection He as <-. apply paginate_thrown in Hp. congruence.
    + split; [done|]. intros _. by eexists.
  - intros params w Haddr Hp Hl Hnone.
    destruct (getMessages_query_addressed params Haddr) as (query & Hquery & Hq).
    rewrite (getMessages_returns params w query Hquery);
      [|by apply effective_page_nonneg|by apply effective_limit_pos].
    rewrite (stage_match_filter query (addressed params)) by done.
    replace (filter (addressed params) (messages w)) with (@nil Message).
    { change (stage_sort_desc m_createdAt []) with (@nil Message).
      by rewrite drop_nil, take_nil. }
    symmetry. induction Hnone as [|m ms Hm _ IH]; [done|].
    by rewrite filter_cons_False.
  - intros params w Haddr Hneg.
    destruct (getMessages_query_addressed params Haddr) as (query & Hquery & _).
    rewrite getMessages_run, Hquery.
    destruct (paginate _ _ _) as [rows|e] eqn:Hpag.
    + exfalso. revert Hpag. unfold paginate, stage_facet.
      destruct (decide _) as [|Hskip]; [done|].
      destruct (decide _) as [|Hlimit]; [done|]. intros _.
      unfold effective_page, effective_limit, number_or, truthy_number in *.
      destruct (gm_page params) as [page|], (gm_limit params) as [limit|]; simpl in *;
        repeat case_bool_decide; simpl in *; destruct Hneg; nia.
    + exists e. split; [done|]. by apply paginate_thrown in Hpag.
Qed.

(** A witness of C7: an empty store asked for a conversation's messages. *)
Lemma getMessages_addressing_witness :
  getMessages (mkGetMessagesParams (Some 7%N) None None None None) empty_world
    = (Returned (mkListing true [] 0 0), empty_world).
Proof.
  destruct getMessages_addressing as (_ & Hempty & _).
  apply (Hempty (mkGetMessagesParams (Some 7%N) None None None None) empty_world).
  - left. by eexists.
  - simpl. lia.
  - simpl. lia.
  - apply Forall_nil_2.
Defined.

(** C8 fails as stated: deleting an absent message reports
    [InvalidArgument], not [NotFound]. *)
Lemma deleteMessage_absent_is_invalid_argument :
  ∃ e, (deleteMessage (Some 7%N) empty_world).1 = Thrown e ∧
       kind e = InvalidArgument ∧ kind e ≠ NotFound.
Proof. eexists. by repeat split. Qed.

(** A witness of C8 (as amended): deleting Ann's message. *)
Lemma deleteMessage_outcomes_witness :
  ∃ i m,
    messages pending_world !! i = Some m ∧ m_id m = 8%N ∧
    deleteMessage (Some 8%N) pending_world
      = (Returned (mkReply true m), with_messages (delete i) pending_world) ∧
    messages (deleteMessage (Some 8%N) pending_world).2 = [].
Proof.
  destruct (deleteMessage_outcomes pending_world) as (_ & _ & _ & _ & Hfound).
  assert (Hex : Exists (λ m, m_id m = 8%N) (messages pending_world)).
  { apply Exists_cons_hd. reflexivity. }
  destruct (Hfound 8%N Hex) as (i & m & Hi & Hm & Hrun & Hlen & _).
  exists i, m. by repeat split.
Defined.

(* ===================================================================== *)
(** ** Trimming *)
(* ===================================================================== *)

Lemma string_app_cons (x : ascii) (a b : string) : String x a +:+ b = String x (a +:+ b).
Proof. reflexivity. Qed.

Lemma string_app_assoc (a b c : string) : (a +:+ b) +:+ c = a +:+ b +:+ c.
Proof. induction a as [|x a IH]; [done|]. rewrite !string_app_cons. by f_equal. Qed.

Lemma string_app_nil_r (a : string) : a +:+ "" = a.
Proof. induction a as [|x a IH]; [done|]. rewrite string_app_cons. by f_equal. Qed.

Lemma string_length_app (a b : string) :
  String.length (a +:+ b) = (String.length a + String.length b)%nat.
Proof. induction a as [|x a IH]; [done|]. rewrite string_app_cons. simpl. by f_equal. Qed.

Lemma string_app_nil (a b : string) : a +:+ b = "" → a = "" ∧ b = "".
Proof. by destruct a. Qed.

Lemma strip_prefix_Some (p s r : string) : strip_prefix p s = Some r ↔ s = p +:+ r.
Proof.
  revert s. induction p as [|a p IH]; intros s; simpl.
  - change ("" +:+ r) with r. split; congruence.
  - rewrite string_app_cons. destruct s as [|b s]; [done|]. case_bool_decide as Hab.
    + subst b. rewrite IH. split; congruence.
    + split; [done|]. intros [= ? _]. by destruct Hab.
Qed.

Lemma head_omap_Some {A B} (f : A → option B) (l : list A) (b : B) :
  head (omap f l) = Some b → ∃ a, a ∈ l ∧ f a = Some b.
Proof.
  induction l as [|a l IH]; simpl; [done|].
  destruct (f a) as [b'|] eqn:Hfa; simpl.
  - intros [= <-]. exists a. split; [apply elem_of_cons; by left|done].
  - intros (a' & Ha' & Hf)%IH. exists a'. split; [apply elem_of_cons; by right|done].
Qed.

Lemma head_omap_None {A B} (f : A → option B) (l : list A) (a : A) :
  head (omap f l) = None → a ∈ l → f a = None.
Proof.
  induction l as [|a' l IH]; simpl; intros Hnone Ha.
  - by apply elem_of_nil in Ha.
  - destruct (f a') as [b'|] eqn:Hfa; simpl in Hnone; [done|].
    apply elem_of_cons in Ha as [->|Ha]; [done|]. by apply IH.
Qed.

Lemma strip_Some (s r : string) :
  strip s = Some r → ∃ ws, ws ∈ white_space ∧ s = ws +:+ r.
Proof.
  intros (ws & Hws & Hp)%head_omap_Some. exists ws. split; [done|].
  by apply strip_prefix_Some.
Qed.

Lemma strip_None (s ws r : string) :
  strip s = None → ws ∈ white_space → s ≠ ws +:+ r.
Proof.
  intros Hnone Hws Hs. pose proof (head_omap_None _ _ ws Hnone Hws) as Hp.
  apply strip_prefix_Some in Hs. congruence.
Qed.

Lemma white_space_nonempty (ws : string) :
  ws ∈ white_space → (1 ≤ String.length ws)%nat.
Proof.
  intros Hws. vm_compute in Hws.
  repeat (apply elem_of_cons in Hws as [->|Hws]; [simpl; lia|]).
  by apply elem_of_nil in Hws.
Qed.

(** No white-space code point is the start of another one's encoding. *)
Lemma strip_white_space (ws s : string) :
  ws ∈ white_space → strip (ws +:+ s) = Some s.
Proof.
  intros Hws. vm_compute in Hws.
  repeat (apply elem_of_cons in Hws as [->|Hws]; [reflexivity|]).
  by apply elem_of_nil in Hws.
Qed.

(** The code points the model strips are the white space of the
    standard. *)
Lemma white_space_spec (ws : string) :
  ws ∈ white_space ↔ ∃ cp, is_white_space cp ∧ ws = utf8 cp.
Proof.
  split.
  - intros Hws. unfold white_space in Hws.
    apply list_elem_of_fmap in Hws as (cp & -> & Hcp). exists cp. split; [|done].
    unfold is_white_space.
    repeat (apply elem_of_cons in Hcp as [->|Hcp];
            [first [ left; by repeat constructor
                   | right; left; by repeat constructor
                   | right; right; left; lia
                   | right; right; right; by repeat constructor ]|]).
    by apply elem_of_nil in Hcp.
  - intros (cp & Hcp & ->). apply list_elem_of_fmap. exists cp. split; [done|].
    destruct Hcp as [Hcp|[Hcp|[Hcp|Hcp]]].
    + repeat (apply elem_of_cons in Hcp as [->|Hcp]; [by repeat constructor|]).
      by apply elem_of_nil in Hcp.
    + repeat (apply elem_of_cons in Hcp as [->|Hcp]; [by repeat constructor|]).
      by apply elem_of_nil in Hcp.
    + assert (∃ k : nat, (k ≤ 10)%nat ∧ cp = (0x2000 + N.of_nat k)%N) as (k & Hk & ->).
      { exists (N.to_nat (cp - 0x2000)). lia. }
      do 11 (destruct k as [|k]; [by repeat constructor|]). lia.
    + repeat (apply elem_of_cons in Hcp as [->|Hcp]; [by repeat constructor|]).
      by apply elem_of_nil in Hcp.
Qed.

(** The fuel of [trim_start] is enough. *)
Lemma trim_start_fuel_spec (fuel : nat) (s : string) :
  (String.length s ≤ fuel)%nat →
  ∃ pre, s = pre +:+ trim_start_fuel fuel s ∧ blank pre ∧
         strip (trim_start_fuel fuel s) = None.
Proof.
  revert s. induction fuel as [|fuel IH]; intros s Hlen; simpl.
  - destruct s; [|simpl in Hlen; lia]. exists "". by repeat split; try constructor.
  - destruct (strip s) as [rest|] eqn:Hstrip.
    + apply strip_Some in Hstrip as (ws & Hws & ->).
      pose proof (white_space_nonempty ws Hws) as Hne.
      rewrite string_length_app in Hlen.
      destruct (IH rest) as (pre & Hrest & Hpre & Hnone); [lia|].
      apply white_space_spec in Hws as (cp & Hcp & ->).
      exists (utf8 cp +:+ pre). split; [|split; [by constructor|done]].
      rewrite string_app_assoc. by rewrite <- Hrest.
    + exists "". by repeat split; try constructor.
Qed.

Lemma trim_start_spec (s : string) :
  ∃ pre, s = pre +:+ trim_start s ∧ blank pre ∧ strip (trim_start s) = None.
Proof. by apply trim_start_fuel_spec. Qed.

Lemma trim_start_fuel_blank (s : string) :
  blank s → ∀ fuel, (String.length s ≤ fuel)%nat → trim_start_fuel fuel s = "".
Proof.
  induction 1 as [|cp s Hcp Hs IH]; intros fuel Hlen.
  - by destruct fuel.
  - assert (Hws : utf8 cp ∈ white_space) by (apply white_space_spec; eauto).
    pose proof (white_space_nonempty _ Hws) as Hne.
    rewrite string_length_app in Hlen.
    destruct fuel as [|fuel]; [lia|]. simpl.
    rewrite (strip_white_space _ s Hws). apply IH. lia.
Qed.

Lemma trim_start_blank (s : string) : trim_start s = "" ↔ blank s.
Proof.
  split.
  - intros Hs. destruct (trim_start_spec s) as (pre & Heq & Hpre & _).
    rewrite Hs, string_app_nil_r in Heq. by subst.
  - intros Hs. by apply trim_start_fuel_blank.
Qed.

Lemma trim_end_spec (s : string) : ∃ post, s = trim_end s +:+ post ∧ blank post.
Proof.
  induction s as [|c s (post & Hs & Hpost)]; simpl.
  - exists "". split; [done|constructor].
  - case_bool_decide as Hblank.
    + exists (String c s). split; [done|]. by apply trim_start_blank.
    + exists post. split; [|done]. rewrite string_app_cons. by f_equal.
Qed.

Lemma trim_end_no_suffix (s : string) (cp : N) (rest : string) :
  is_white_space cp → trim_end s ≠ rest +:+ utf8 cp.
Proof.
  intros Hcp.
  assert (Hws : utf8 cp ∈ white_space) by (apply white_space_spec; eauto).
  pose proof (white_space_nonempty _ Hws) as Hne.
  revert rest. induction s as [|c s IH]; intros rest; simpl.
  - intros [_ Heq]%eq_sym%string_app_nil. rewrite Heq in Hne. simpl in Hne. lia.
  - case_bool_decide as Hblank.
    + intros [_ Heq]%eq_sym%string_app_nil. rewrite Heq in Hne. simpl in Hne. lia.
    + destruct rest as [|c' rest].
      * intros Heq. apply Hblank, trim_start_blank.
        destruct (trim_end_spec s) as (post & Hs & Hpost).
        rewrite Hs, <- string_app_cons, Heq. by constructor.
      * rewrite string_app_cons. intros [= _ Heq]. by eapply IH.
Qed.

(** [trim s] is [s] without the white space at its two ends. *)
Lemma trim_spec (s : string) : trimmed_from s (trim s).
Proof.
  destruct (trim_start_spec s) as (pre & Hs & Hpre & Hnone).
  destruct (trim_end_spec (trim_start s)) as (post & Hr & Hpost).
  exists pre, post. fold (trim s) in Hr.
  split; [by rewrite <- Hr|]. split; [done|]. split; [done|].
  intros cp rest Hcp. split.
  - intros Heq. rewrite Heq, string_app_assoc in Hr.
    apply (strip_None _ (utf8 cp) (rest +:+ post)) in Hnone; [done|].
    apply white_space_spec; eauto.
  - by apply trim_end_no_suffix.
Qed.

(** The keyword of [getConversations] is [q] trimmed, and empty without
    a [q]. *)
Lemma keyword_of_spec (q : option string) : trimmed_from (default "" q) (keyword_of q).
Proof.
  unfold keyword_of. destruct (truthy_string q) eqn:Hq; [apply trim_spec|].
  assert (default "" q = "") as ->.
  { destruct q as [q|]; [|done]. simpl in *.
    by apply negb_false_iff, bool_decide_eq_true in Hq. }
  exists "", "". split; [done|]. split; [constructor|]. split; [constructor|].
  intros cp rest Hcp.
  assert (Hws : utf8 cp ∈ white_space) by (apply white_space_spec; eauto).
  pose proof (white_space_nonempty _ Hws) as Hne.
  split; intros [Ha Hb]%eq_sym%string_app_nil; [rewrite Ha in Hne|rewrite Hb in Hne];
    simpl in Hne; lia.
Qed.

(* ===================================================================== *)
(** ** Listing conversations *)
(* ===================================================================== *)

Lemma filter_none {A} (P : A → bool) (l : list A) :
  Forall (λ x, P x = false) l → filter (λ x, P x) l = [].
Proof.
  induction 1 as [|x l Hx _ IH]; [done|].
  rewrite filter_cons, Hx. simpl. exact IH.
Qed.

(** With unique keys, the documents a key-determined condition selects are
    the first one found, if any. *)
Lemma filter_find_unique {A K} (key : A → K) (k : K) (P : A → bool) (l : list A) :
  NoDup (key <$> l) →
  (∀ x, P x = true → key x = k) →
  filter (λ x, P x) l = option_list (find P l).
Proof.
  intros Hnd HP. induction l as [|x l IH]; [done|].
  apply NoDup_cons in Hnd as [Hx Hnd].
  rewrite filter_cons. simpl. destruct (P x) eqn:Hpx; simpl.
  - f_equal. apply filter_none, Forall_forall. intros y Hy.
    destruct (P y) eqn:Hpy; [|done]. destruct Hx.
    rewrite (HP x Hpx), <- (HP y Hpy). by apply list_elem_of_fmap_2.
  - by apply IH.
Qed.

Lemma stage_lookup_unwind_omap {D F R} (from : list F) (on : D → F → bool)
    (as_ : D → F → R) (docs : list D) :
  (∀ d, filter (λ f, on d f) from = option_list (find (on d) from)) →
  stage_lookup_unwind from on as_ docs = omap (λ d, as_ d <$> find (on d) from) docs.
Proof.
  intros Hone. unfold stage_lookup_unwind.
  induction docs as [|d docs IH]; [done|].
  rewrite bind_cons, IH, Hone. simpl. by destruct (find (on d) from).
Qed.

Lemma stage_lookup_unwind_elem {D F R} (from : list F) (on : D → F → bool)
    (as_ : D → F → R) (docs : list D) (r : R) :
  r ∈ stage_lookup_unwind from on as_ docs ↔
  ∃ d f, d ∈ docs ∧ f ∈ from ∧ on d f = true ∧ r = as_ d f.
Proof.
  unfold stage_lookup_unwind. rewrite list_elem_of_bind. split.
  - intros (d & Hr & Hd). apply list_elem_of_fmap in Hr as (f & -> & Hf).
    apply list_elem_of_filter in Hf as [Hon Hf]. apply Is_true_true in Hon.
    by exists d, f.
  - intros (d & f & Hd & Hf & Hon & ->). exists d. split; [|done].
    apply list_elem_of_fmap. exists f. split; [done|].
    apply list_elem_of_filter. split; [by apply Is_true_true|done].
Qed.

Lemma stage_match_elem {D} (query : Filter D) (docs : list D) (d : D) :
  d ∈ stage_match query docs ↔ d ∈ docs ∧ query d = true.
Proof.
  unfold stage_match. rewrite list_elem_of_filter, Is_true_true. tauto.
Qed.

Section conversation_listing.
Context `{RegexEngine}.

Lemma getConversations_run (params : GetConversationsParams) (w : World) :
  getConversations params w =
  match paginate (effective_page (gc_page params)) (effective_limit (gc_limit params))
          (conversation_rows (getConversations_query (gc_user params)) (gc_user params)
             (keyword_of (gc_q params)) w) with
  | Returned rows => (Returned (spread rows), w)
  | Thrown e => (Thrown e, w)
  end.
Proof.
  unfold getConversations. rewrite bind_run. unfold aggregate.
  fold (effective_limit (gc_limit params)). fold (effective_page (gc_page params)).
  fold (keyword_of (gc_q params)). fold (getConversations_query (gc_user params)).
  by destruct (paginate _ _ _).
Qed.

(** The three ways a [getConversations] can end. *)
Lemma getConversations_returned (params : GetConversationsParams) (w : World)
    (reply : Listing ConversationView) :
  (getConversations params w).1 = Returned reply →
  let limit := effective_limit (gc_limit params) in
  let page := effective_page (gc_page params) in
  let rows := conversation_rows (getConversations_query (gc_user params)) (gc_user params)
                (keyword_of (gc_q params)) w in
  l_data reply = take (Z.to_nat limit) (drop (Z.to_nat (page * limit)) rows) ∧
  l_totalCount reply = Z.of_nat (length rows).
Proof.
  rewrite getConversations_run.
  destruct (paginate _ _ _) as [pages|e] eqn:Hp; simpl; [|done].
  intros [= <-]. by rewrite (paginate_returned _ _ _ _ Hp).
Qed.

Lemma getConversations_returns (params : GetConversationsParams) (w : World) :
  (0 ≤ default 0 (gc_page params))%Z → (0 ≤ default 0 (gc_limit params))%Z →
  ∃ reply, getConversations params w = (Returned reply, w).
Proof.
  intros Hpage Hlimit. rewrite getConversations_run.
  destruct (listing_run (effective_page (gc_page params)) (effective_limit (gc_limit params))
              (conversation_rows (getConversations_query (gc_user params)) (gc_user params)
                 (keyword_of (gc_q params)) w)) as (pages & -> & _).
  { by apply effective_page_nonneg. }
  { by apply effective_limit_pos. }
  by eexists.
Qed.

Lemma getConversations_thrown (params : GetConversationsParams) (w : World) (e : Exn) :
  (getConversations params w).1 = Thrown e → kind e = Unclassified.
Proof.
  rewrite getConversations_run.
  destruct (paginate _ _ _) as [pages|e'] eqn:Hp; simpl; [done|].
  intros [= <-]. by apply paginate_thrown in Hp.
Qed.

(** Inner-join semantics: the rows are those of the matched conversations
    that have one. *)
Lemma conversation_rows_perm (query : Filter Conversation) (user : option ObjectId)
    (keyword : string) (w : World) :
  NoDup (m_id <$> messages w) → NoDup (u_id <$> users w) →
  conversation_rows query user keyword w ≡ₚ
    omap (conversation_view user keyword w) (stage_match query (conversations w)).
Proof.
  intros Hm Hu. unfold conversation_rows.
  rewrite (stage_lookup_unwind_omap (users w)).
  2: { intros p. apply (filter_find_unique u_id (pj_user p)); [done|].
       intros u [Hid _]%andb_prop. by apply bool_decide_eq_true in Hid. }
  rewrite (stage_lookup_unwind_omap (messages w)).
  2: { intros c. destruct (c_lastMessage c) as [k|] eqn:Hk.
       - apply (filter_find_unique m_id k); [done|].
         intros m Hid. apply bool_decide_eq_true in Hid. congruence.
       - apply (filter_find_unique m_id 0%N); [done|].
         intros m Hid. by apply bool_decide_eq_true in Hid. }
  rewrite stage_sort_desc_perm.
  generalize (stage_match query (conversations w)). intros l.
  induction l as [|c l IH]; [done|].
  simpl. unfold conversation_view at 1.
  destruct (find _ (messages w)) as [m|]; simpl; [|exact IH].
  destruct (find _ (users w)) as [u|]; simpl; [|exact IH].
  by rewrite IH.
Qed.

(** Where a row comes from, whatever the identities in the store. *)
Lemma conversation_rows_elem (query : Filter Conversation) (user : option ObjectId)
    (keyword : string) (w : World) (v : ConversationView) :
  v ∈ conversation_rows query user keyword w ↔
  ∃ c m u,
    c ∈ conversations w ∧ query c = true ∧
    m ∈ messages w ∧ c_lastMessage c = Some (m_id m) ∧
    u ∈ users w ∧ u_id u = peer user c ∧ regex_i keyword (u_name u) = true ∧
    v = mkConversationView (c_id c) (mkUserView (u_id u) (u_name u) (u_image u))
          (project_lastMessage m).
Proof.
  unfold conversation_rows. rewrite stage_lookup_unwind_elem. split.
  - intros (p & u & Hp & Hu & Hon & ->).
    apply andb_prop in Hon as [Hid Hre]. apply bool_decide_eq_true in Hid.
    apply list_elem_of_fmap in Hp as (j & -> & Hj).
    rewrite stage_sort_desc_perm in Hj.
    apply stage_lookup_unwind_elem in Hj as (c & m & Hc & Hm & Hlast & ->).
    apply bool_decide_eq_true in Hlast.
    apply stage_match_elem in Hc as [Hc Hq].
    by exists c, m, u.
  - intros (c & m & u & Hc & Hq & Hm & Hlast & Hu & Hid & Hre & ->).
    exists (mkProjected (c_id c) (peer user c) (project_lastMessage m)), u.
    split; [|split; [done|split; [|done]]].
    + apply list_elem_of_fmap. exists (mkJoined c (project_lastMessage m)).
      split; [done|]. rewrite stage_sort_desc_perm.
      apply stage_lookup_unwind_elem. exists c, m.
      split; [by apply stage_match_elem|]. split; [done|].
      split; [by apply bool_decide_eq_true|done].
    + simpl. apply andb_true_intro. split; [by apply bool_decide_eq_true|done].
Qed.

End conversation_listing.

Lemma peer_spec (user : ObjectId) (c : Conversation) :
  peer (Some user) c = if bool_decide (user = c_userTo c) then c_userFrom c else c_userTo c.
Proof. unfold peer. repeat case_bool_decide; congruence. Qed.

Lemma stage_match_all {D} (docs : list D) : stage_match q_all docs = docs.
Proof.
  unfold stage_match. induction docs as [|d docs IH]; [done|].
  rewrite filter_cons_True by done. by rewrite IH.
Qed.

Lemma stage_match_participant (user : ObjectId) (l : list Conversation) :
  stage_match (getConversations_query (Some user)) l
  = filter (λ c, c_userTo c = user ∨ c_userFrom c = user) l.
Proof.
  apply stage_match_filter. intros c. unfold getConversations_query, q_or, q_eq. simpl.
  rewrite !orb_true_iff, !bool_decide_eq_true. intuition discriminate.
Qed.

Section conversation_claims.
Context `{RegexEngine}.

(** C5 (as amended): in a [getConversations] for [user], the keyword is
    [q] trimmed (empty without a [q]); every row comes from a conversation
    [user] takes part in, whose last message resolves and whose listed
    user exists and passes the case-insensitive keyword filter, and every
    such conversation has a row; [data] is a page of these rows and
    [totalCount] their number, so a conversation failing either join is in
    neither. A row carries the conversation's identity, the identity, name
    and image of the listed user and the identity, text, sender, creation
    time and attachment types of the last message. The listed user is the
    stored [userFrom] when the caller is the stored [userTo], otherwise the
    stored [userTo]: the other participant exactly when the two stored
    participants differ, the caller in a conversation with themself. With
    unique identities a conversation has at most one row. *)
Theorem getConversations_peer (params : GetConversationsParams) (w : World)
    (user : ObjectId) :
  let keyword := keyword_of (gc_q params) in
  let limit := effective_limit (gc_limit params) in
  let page := effective_page (gc_page params) in
  let listed := λ c, if bool_decide (user = c_userTo c) then c_userFrom c else c_userTo c in
  let rows := conversation_rows (getConversations_query (Some user)) (Some user) keyword w in
  gc_user params = Some user →
  trimmed_from (default "" (gc_q params)) keyword ∧
  (∀ reply, (getConversations params w).1 = Returned reply →
     l_data reply = take (Z.to_nat limit) (drop (Z.to_nat (page * limit)) rows) ∧
     l_totalCount reply = Z.of_nat (length rows)) ∧
  (∀ v, v ∈ rows ↔
     ∃ c m u,
       c ∈ conversations w ∧ (c_userTo c = user ∨ c_userFrom c = user) ∧
       m ∈ messages w ∧ c_lastMessage c = Some (m_id m) ∧
       u ∈ users w ∧ u_id u = listed c ∧
       regex_i keyword (u_name u) = true ∧
       v = mkConversationView (c_id c) (mkUserView (u_id u) (u_name u) (u_image u))
             (mkLastMessageView (m_id m) (m_text m) (m_userFrom m) (m_createdAt m)
                ((λ attachments : list Attachment, a_type <$> attachments)
                   <$> m_attachments m))) ∧
  (∀ c, c_userTo c = user ∨ c_userFrom c = user →
        (listed c = c_userFrom c ∨ listed c = c_userTo c) ∧
        (listed c = user ↔ c_userFrom c = c_userTo c)) ∧
  (NoDup (m_id <$> messages w) → NoDup (u_id <$> users w) →
   rows ≡ₚ omap (conversation_view (Some user) keyword w)
             (filter (λ c, c_userTo c = user ∨ c_userFrom c = user) (conversations w))).
Proof.
  intros keyword limit page listed rows Huser.
  assert (Hquery : ∀ c, getConversations_query (Some user) c = true ↔
            (c_userTo c = user ∨ c_userFrom c = user)).
  { intros c. unfold getConversations_query, q_or, q_eq. simpl.
    repeat case_bool_decide; simpl; intuition congruence. }
  split; [apply keyword_of_spec|]. split; [|split; [|split]].
  - intros reply Hreply. apply getConversations_returned in Hreply.
    by rewrite Huser in Hreply.
  - intros v. unfold rows, listed. rewrite conversation_rows_elem.
    split; intros (c & m & u & Hc & Hq & Hm & Hlast & Hu & Hid & Hre & ->);
      exists c, m, u; rewrite peer_spec in *; apply Hquery in Hq; by repeat split.
  - intros c Hc. unfold listed. case_bool_decide; split; auto;
      split; intros; destruct Hc; congruence.
  - intros Hm Hu. rewrite <- stage_match_participant. by apply conversation_rows_perm.
Qed.

(** C10: without a [user] argument [getConversations] does not fail with
    [InvalidArgument], and it returns when no keyword is given and the
    page and limit are absent or not negative; it omits the participant
    filter, so every conversation of the store enters the pipeline, and
    the page and [totalCount] are taken from the rows of all of them: the
    conversations whose last message resolves and whose stored [userTo]
    exists and passes the filter on the keyword, which is [q] trimmed. *)
Theorem getConversations_without_user (params : GetConversationsParams) (w : World) :
  let keyword := keyword_of (gc_q params) in
  let limit := effective_limit (gc_limit params) in
  let page := effective_page (gc_page params) in
  let rows := conversation_rows (getConversations_query None) None keyword w in
  gc_user params = None →
  trimmed_from (default "" (gc_q params)) keyword ∧
  (∀ e, (getConversations params w).1 = Thrown e → kind e ≠ InvalidArgument) ∧
  (truthy_string (gc_q params) = false →
   (0 ≤ default 0 (gc_page params))%Z → (0 ≤ default 0 (gc_limit params))%Z →
   ∃ reply, getConversations params w = (Returned reply, w)) ∧
  (∀ reply, (getConversations params w).1 = Returned reply →
     l_data reply = take (Z.to_nat limit) (drop (Z.to_nat (page * limit)) rows) ∧
     l_totalCount reply = Z.of_nat (length rows)) ∧
  (∀ v, v ∈ rows ↔
     ∃ c m u,
       c ∈ conversations w ∧
       m ∈ messages w ∧ c_lastMessage c = Some (m_id m) ∧
       u ∈ users w ∧ u_id u = c_userTo c ∧ regex_i keyword (u_name u) = true ∧
       v = mkConversationView (c_id c) (mkUserView (u_id u) (u_name u) (u_image u))
             (mkLastMessageView (m_id m) (m_text m) (m_userFrom m) (m_createdAt m)
                ((λ attachments : list Attachment, a_type <$> attachments)
                   <$> m_attachments m))) ∧
  (NoDup (m_id <$> messages w) → NoDup (u_id <$> users w) →
   rows ≡ₚ omap (conversation_view None keyword w) (conversations w)).
Proof.
  intros keyword limit page rows Huser.
  split; [apply keyword_of_spec|]. split; [|split; [|split; [|split]]].
  - intros e He%getConversations_thrown. congruence.
  - intros _. apply getConversations_returns.
  - intros reply Hreply. apply getConversations_returned in Hreply.
    by rewrite Huser in Hreply.
  - intros v. unfold rows. rewrite conversation_rows_elem.
    split; intros (c & m & u & Hx); exists c, m, u; unfold peer in *; simpl in *;
      [destruct Hx as (Hc & _ & Hm & Hlast & Hu & Hid & Hre & ->)
      |destruct Hx as (Hc & Hm & Hlast & Hu & Hid & Hre & ->)];
      by repeat split.
  - intros Hm Hu. unfold rows.
    rewrite (conversation_rows_perm _ _ _ _ Hm Hu).
    by rewrite stage_match_all.
Qed.
End conversation_claims.

(** A witness of C5: Ann lists her conversations with the keyword " bo"
    followed by a no-break space (bytes 194 and 160); the one row names
    Bob. *)
Lemma getConversations_peer_witness :
  ∃ reply,
    (@getConversations literal_regex
       (mkGetConversationsParams (Some 1%N) (Some (" bo" +:+ String "194" (String "160" ""))) None None)
       pending_world).1 = Returned reply ∧
    uv_name ∘ cv_user <$> l_data reply = ["Bob"].
Proof.
  eexists. split; [reflexivity|].
  destruct (@getConversations_peer literal_regex
              (mkGetConversationsParams (Some 1%N) (Some (" bo" +:+ String "194" (String "160" ""))) None None)
              pending_world 1%N eq_refl) as (_ & Hreply & _).
  destruct (Hreply _ eq_refl) as [-> _]. reflexivity.
Defined.

(** C5 fails as stated: after Ann wrote to herself, the conversation she
    lists resolves its [user] field to Ann, the caller, not to another
    participant. *)
Lemma getConversations_lists_the_caller :
  ∃ reply,
    (@getConversations literal_regex (mkGetConversationsParams (Some 1%N) None None None)
       (@send quiet ann_to_ann fresh_world).2).1 = Returned reply ∧
    uv_id ∘ cv_user <$> l_data reply = [1%N].
Proof. eexists. split; reflexivity. Qed.

(** A witness of C10: listing without a user on Ann and Bob's store. *)
Lemma getConversations_without_user_witness :
  ∃ reply,
    @getConversations literal_regex (mkGetConversationsParams None None None None)
      pending_world = (Returned reply, pending_world).
Proof.
  destruct (@getConversations_without_user literal_regex
              (mkGetConversationsParams None None None None) pending_world eq_refl)
    as (_ & _ & Hreturns & _).
  apply Hreturns; [reflexivity | simpl; lia | simpl; lia].
Defined.

(* ===================================================================== *)
(** ** Updating a message *)
(* ===================================================================== *)

Lemma updateMessage_run (params : UpdateMessageParams) (w : World) :
  updateMessage params w =
  match um_message params with
  | None => (Thrown (Error "Please enter message id!|||400"), w)
  | Some id =>
      match list_find (λ m, m_id m = id) (messages w) with
      | Some (i, m) =>
          let m' := set_message_status (um_status params) (set_text (um_text params) m) in
          (Returned (mkReply true m'), with_messages (<[i := m']>) w)
      | None => (Thrown (Error "Message not found!|||404"), w)
      end
  end.
Proof.
  unfold updateMessage, messagesModel_findByIdAndUpdate.
  destruct (um_message params); [|done]. rewrite bind_run.
  by destruct (list_find _ _) as [[i m]|].
Qed.

(** X1: [updateMessage] without a message id fails with [InvalidArgument];
    with a (well-formed) id that no stored message carries it fails with
    [NotFound] (code 404), unlike [deleteMessage]; a failing call leaves the
    store as it was. *)
Theorem updateMessage_failures (params : UpdateMessageParams) (w : World) :
  (um_message params = None →
   updateMessage params w = (Thrown (Error "Please enter message id!|||400"), w)) ∧
  kind (Error "Please enter message id!|||400") = InvalidArgument ∧
  (∀ id, um_message params = Some id → Forall (λ m, m_id m ≠ id) (messages w) →
         updateMessage params w = (Thrown (Error "Message not found!|||404"), w)) ∧
  kind (Error "Message not found!|||404") = NotFound ∧
  (∀ e, (updateMessage params w).1 = Thrown e →
        (updateMessage params w).2 = w ∧
        (kind e = InvalidArgument ∨ kind e = NotFound)).
Proof.
  rewrite updateMessage_run.
  split; [by intros ->|]. split; [reflexivity|]. split; [|split; [reflexivity|]].
  - intros id -> Hnone.
    destruct (list_find _ _) as [[i m]|] eqn:Hfind; [|done].
    apply list_find_Some in Hfind as (Hi & Hm & _).
    rewrite Forall_forall in Hnone. destruct (Hnone m); [|done].
    by eapply list_elem_of_lookup_2.
  - intros e. destruct (um_message params) as [id|]; simpl.
    + destruct (list_find _ _) as [[i m]|]; simpl; [done|].
      intros [= <-]. split; [done|]. by right.
    + intros [= <-]. split; [done|]. by left.
Qed.

(** A witness of X1: no stored message carries the id 9. *)
Lemma updateMessage_failures_witness :
  updateMessage (mkUpdateMessageParams (Some 9%N) (Some "edited") None) pending_world
  = (Thrown (Error "Message not found!|||404"), pending_world).
Proof.
  destruct (updateMessage_failures (mkUpdateMessageParams (Some 9%N) (Some "edited") None)
              pending_world) as (_ & _ & Habsent & _).
  apply (Habsent 9%N eq_refl).
  apply Forall_cons. split; [simpl; lia|apply Forall_nil_2].
Defined.

(** X2: [updateMessage] on a stored message replaces it, in place, by the
    message with the supplied truthy [text] and the supplied [status] and
    returns that message; its identity, sender, recipient, conversation,
    attachments and creation time are kept, and every other stored message
    is untouched. *)
Theorem updateMessage_effect (params : UpdateMessageParams) (w : World) (id : ObjectId) :
  um_message params = Some id →
  Exists (λ m, m_id m = id) (messages w) →
  ∃ i m m',
    messages w !! i = Some m ∧ m_id m = id ∧
    updateMessage params w = (Returned (mkReply true m'), with_messages (<[i := m']>) w) ∧
    messages (updateMessage params w).2 !! i = Some m' ∧
    (∀ j, j ≠ i → messages (updateMessage params w).2 !! j = messages w !! j) ∧
    length (messages (updateMessage params w).2) = length (messages w) ∧
    m_text m' = (if truthy_string (um_text params) then um_text params else m_text m) ∧
    m_status m' = default (m_status m) (um_status params) ∧
    m_id m' = id ∧ m_userFrom m' = m_userFrom m ∧ m_userTo m' = m_userTo m ∧
    m_conversation m' = m_conversation m ∧ m_attachments m' = m_attachments m ∧
    m_createdAt m' = m_createdAt m.
Proof.
  intros Hid Hex. rewrite updateMessage_run, Hid.
  destruct (list_find _ _) as [[i m]|] eqn:Hfind.
  - apply list_find_Some in Hfind as (Hi & Hm & _).
    exists i, m, (set_message_status (um_status params) (set_text (um_text params) m)).
    simpl. split; [done|]. split; [done|]. split; [done|].
    split; [apply list_lookup_insert_eq; by eapply lookup_lt_Some|].
    split; [intros j Hj; by apply list_lookup_insert_ne|].
    split; [apply length_insert|].
    unfold set_message_status, set_text.
    destruct (um_status params), (truthy_string (um_text params)); by repeat split.
  - apply list_find_None in Hfind. rewrite Forall_forall in Hfind.
    apply Exists_exists in Hex as (m & Hm & Hmid). by destruct (Hfind m).
Qed.

(** X3: a text cannot be blanked: [updateMessage] with an absent or empty
    [text] and no [status] succeeds, returns the stored message and leaves
    the store exactly as it was. *)
Theorem updateMessage_falsy_is_noop (params : UpdateMessageParams) (w : World)
    (id : ObjectId) :
  um_message params = Some id →
  um_text params = None ∨ um_text params = Some "" →
  um_status params = None →
  Exists (λ m, m_id m = id) (messages w) →
  ∃ m, m ∈ messages w ∧ m_id m = id ∧
       updateMessage params w = (Returned (mkReply true m), w).
Proof.
  intros Hid Htext Hstatus Hex. rewrite updateMessage_run, Hid, Hstatus.
  destruct (list_find _ _) as [[i m]|] eqn:Hfind.
  - apply list_find_Some in Hfind as (Hi & Hm & _).
    exists m. split; [by eapply list_elem_of_lookup_2|]. split; [done|].
    assert (set_text (um_text params) m = m) as ->.
    { unfold set_text. by destruct Htext as [-> | ->]. }
    simpl. f_equal. destruct w. unfold with_messages. simpl in *.
    by rewrite list_insert_id.
  - apply list_find_None in Hfind. rewrite Forall_forall in Hfind.
    apply Exists_exists in Hex as (m & Hm & Hmid). by destruct (Hfind m).
Qed.

(** A witness of X2: Bob's client marks Ann's message as read. *)
Lemma updateMessage_effect_witness :
  ∃ m', updateMessage (mkUpdateMessageParams (Some 8%N) None (Some READ)) pending_world
          = (Returned (mkReply true m'),
             with_messages (<[0%nat := m']>) pending_world) ∧
        m_status m' = READ ∧ m_text m' = Some "hi".
Proof.
  assert (Hex : Exists (λ m, m_id m = 8%N) (messages pending_world)).
  { apply Exists_cons_hd. reflexivity. }
  destruct (updateMessage_effect (mkUpdateMessageParams (Some 8%N) None (Some READ))
              pending_world 8%N eq_refl Hex)
    as (i & m & m' & Hi & _ & Hrun & _ & _ & _ & Htext & Hstatus & _).
  destruct i as [|i]; [|by destruct i].
  injection Hi as <-. exists m'. by repeat split.
Defined.

(** A witness of X3: an empty text does not change Ann's message. *)
Lemma updateMessage_falsy_is_noop_witness :
  ∃ m, m ∈ messages pending_world ∧ m_id m = 8%N ∧
       updateMessage (mkUpdateMessageParams (Some 8%N) (Some "") None) pending_world
         = (Returned (mkReply true m), pending_world).
Proof.
  apply (updateMessage_falsy_is_noop (mkUpdateMessageParams (Some 8%N) (Some "") None)
           pending_world 8%N eq_refl (or_intror eq_refl) eq_refl).
  apply Exists_cons_hd. reflexivity.
Defined.

(* ===================================================================== *)
(** ** Marking messages as read *)
(* ===================================================================== *)

Lemma readMessages_run (params : ReadMessagesParams) (w : World) :
  readMessages params w =
  match rm_userTo params with
  | None => (Thrown (Error "Please enter userTo id!|||400"), w)
  | Some userTo =>
      if bool_decide (Exists (λ u, u_id u = userTo) (users w)) then
        match rm_conversation params with
        | None => (Thrown (Error "Please enter conversation id!|||400"), w)
        | Some conversation =>
            if bool_decide (Exists (λ c, c_id c = conversation) (conversations w)) then
              (Returned (mkAck true "messages read successfully!"),
               with_messages
                 (fmap (λ m, if q_and [q_eq m_conversation (Some conversation);
                                       q_eq m_userTo (Some userTo)] m
                             then set_message_status (Some READ) m else m)) w)
            else (Thrown (Error "Please enter valid conversation id!|||400"), w)
        end
      else (Thrown (Error "Please enter valid userTo id!|||400"), w)
  end.
Proof.
  unfold readMessages, usersModel_exists, conversationsModel_exists, messagesModel_updateMany.
  destruct (rm_userTo params); [|done]. rewrite bind_run. unfold gets at 1.
  case_bool_decide; [|done].
  destruct (rm_conversation params); [|done]. rewrite bind_run. unfold gets at 1.
  by case_bool_decide.
Qed.

(** X4: [readMessages] validates in a fixed order - recipient supplied,
    recipient exists, conversation supplied, conversation exists - and the
    first check that fails decides the error; every failure is an
    [InvalidArgument] and writes nothing. *)
Theorem readMessages_failures (params : ReadMessagesParams) (w : World) :
  (rm_userTo params = None →
   readMessages params w = (Thrown (Error "Please enter userTo id!|||400"), w)) ∧
  (∀ userTo, rm_userTo params = Some userTo →
     Forall (λ u, u_id u ≠ userTo) (users w) →
     readMessages params w = (Thrown (Error "Please enter valid userTo id!|||400"), w)) ∧
  (∀ userTo, rm_userTo params = Some userTo →
     Exists (λ u, u_id u = userTo) (users w) →
     rm_conversation params = None →
     readMessages params w = (Thrown (Error "Please enter conversation id!|||400"), w)) ∧
  (∀ userTo conversation, rm_userTo params = Some userTo →
     Exists (λ u, u_id u = userTo) (users w) →
     rm_conversation params = Some conversation →
     Forall (λ c, c_id c ≠ conversation) (conversations w) →
     readMessages params w
       = (Thrown (Error "Please enter valid conversation id!|||400"), w)) ∧
  (∀ e, (readMessages params w).1 = Thrown e →
        (readMessages params w).2 = w ∧ kind e = InvalidArgument).
Proof.
  rewrite readMessages_run.
  split; [by intros ->|]. split; [|split; [|split]].
  - intros userTo -> Hnone. rewrite bool_decide_false; [done|].
    intros Hex. apply Exists_exists in Hex as (u & Hu & Hid).
    rewrite Forall_forall in Hnone. by destruct (Hnone u).
  - intros userTo -> Hex ->. by rewrite bool_decide_true.
  - intros userTo conversation -> Hex -> Hnone. rewrite bool_decide_true by done.
    rewrite bool_decide_false; [done|].
    intros Hc. apply Exists_exists in Hc as (c & Hc & Hid).
    rewrite Forall_forall in Hnone. by destruct (Hnone c).
  - intros e. destruct (rm_userTo params); [|by intros [= <-]].
    case_bool_decide; [|by intros [= <-]].
    destruct (rm_conversation params); [|by intros [= <-]].
    case_bool_decide; [done|by intros [= <-]].
Qed.

(** A witness of X4: no user carries the id 3, so the conversation is not
    even looked at. *)
Lemma readMessages_failures_witness :
  readMessages (mkReadMessagesParams None (Some 3%N)) pending_world
  = (Thrown (Error "Please enter valid userTo id!|||400"), pending_world).
Proof.
  destruct (readMessages_failures (mkReadMessagesParams None (Some 3%N)) pending_world)
    as (_ & Hunknown & _).
  apply (Hunknown 3%N eq_refl).
  repeat (apply Forall_cons; split; [simpl; lia|]). apply Forall_nil_2.
Defined.

(** X5: a [readMessages] for an existing recipient and an existing
    conversation returns its acknowledgement and sets the status READ on
    exactly the stored messages of that conversation addressed to that
    recipient; every other message, and every other field of the marked
    ones, is as before, and so are the conversations and the users. *)
Theorem readMessages_marks (params : ReadMessagesParams) (w : World)
    (userTo conversation : ObjectId) :
  rm_userTo params = Some userTo →
  rm_conversation params = Some conversation →
  Exists (λ u, u_id u = userTo) (users w) →
  Exists (λ c, c_id c = conversation) (conversations w) →
  (readMessages params w).1 = Returned (mkAck true "messages read successfully!") ∧
  conversations (readMessages params w).2 = conversations w ∧
  users (readMessages params w).2 = users w ∧
  length (messages (readMessages params w).2) = length (messages w) ∧
  ∀ i m, messages w !! i = Some m →
    ∃ m', messages (readMessages params w).2 !! i = Some m' ∧
      m_status m' =
        (if bool_decide (m_conversation m = Some conversation ∧ m_userTo m = Some userTo)
         then READ else m_status m) ∧
      m_id m' = m_id m ∧ m_userFrom m' = m_userFrom m ∧ m_userTo m' = m_userTo m ∧
      m_conversation m' = m_conversation m ∧ m_text m' = m_text m ∧
      m_attachments m' = m_attachments m ∧ m_createdAt m' = m_createdAt m.
Proof.
  intros Hu Hc Hux Hcx. rewrite readMessages_run, Hu, Hc.
  rewrite !bool_decide_true by done. simpl.
  split; [done|]. split; [done|]. split; [done|]. split; [by rewrite length_fmap|].
  intros i m Hi. eexists. rewrite list_lookup_fmap, Hi. simpl. split; [reflexivity|].
  unfold q_and, q_eq. simpl.
  repeat case_bool_decide; simpl; by intuition.
Qed.

(** X6: [readMessages] is idempotent: running it again on the store it
    left gives the same outcome and the same store. *)
Theorem readMessages_idempotent (params : ReadMessagesParams) (w : World) :
  readMessages params (readMessages params w).2 = readMessages params w.
Proof.
  rewrite (readMessages_run params w).
  destruct (rm_userTo params) as [userTo|] eqn:Hu; simpl;
    [|by rewrite readMessages_run, Hu].
  case_bool_decide as Hux; simpl; [|by rewrite readMessages_run, Hu, bool_decide_false].
  destruct (rm_conversation params) as [conversation|] eqn:Hc; simpl;
    [|by rewrite readMessages_run, Hu, Hc, bool_decide_true].
  case_bool_decide as Hcx; simpl;
    [|by rewrite readMessages_run, Hu, Hc, bool_decide_true, bool_decide_false].
  rewrite readMessages_run, Hu, Hc. simpl. rewrite !bool_decide_true by done.
  f_equal. unfold with_messages. simpl. f_equal.
  rewrite <- list_fmap_compose. apply list_fmap_ext. intros i m _. simpl.
  unfold q_and, q_eq. simpl.
  repeat case_bool_decide; simpl in *; try done; by intuition.
Qed.

(** A witness of X5: Bob reads Ann's message. *)
Lemma readMessages_marks_witness :
  m_status <$> messages (readMessages (mkReadMessagesParams (Some 7%N) (Some 2%N))
                           pending_world).2 = [READ].
Proof.
  assert (Hu : Exists (λ u, u_id u = 2%N) (users pending_world)).
  { apply Exists_cons_tl, Exists_cons_hd. reflexivity. }
  assert (Hc : Exists (λ c, c_id c = 7%N) (conversations pending_world)).
  { apply Exists_cons_hd. reflexivity. }
  destruct (readMessages_marks (mkReadMessagesParams (Some 7%N) (Some 2%N)) pending_world
              2%N 7%N eq_refl eq_refl Hu Hc) as (_ & _ & _ & Hlen & Hmarks).
  destruct (Hmarks 0%nat _ eq_refl) as (m' & Hm' & Hst & _).
  destruct (messages (readMessages _ pending_world).2) as [|m1 [|m2 l]];
    simpl in Hlen, Hm'; try discriminate.
  injection Hm' as ->. simpl. by rewrite Hst.
Defined.

(* ===================================================================== *)
(** ** More on the life cycle *)
(* ===================================================================== *)

Lemma conversation_by_id_unique (l : list Conversation) (c d : Conversation) :
  NoDup (c_id <$> l) → c ∈ l → d ∈ l → c_id c = c_id d → c = d.
Proof.
  intros Hnd Hc Hd Hid.
  pose proof (find_by_id_NoDup c l Hnd Hc) as Hfc.
  pose proof (find_by_id_NoDup d l Hnd Hd) as Hfd.
  rewrite Hid in Hfc. congruence.
Qed.

Lemma status_of_elem (l : list Conversation) (c : Conversation) (w : World) :
  conversations w = l → NoDup (c_id <$> l) → c ∈ l →
  status_of (c_id c) w = Some (c_status c).
Proof.
  intros Hw Hnd Hc. unfold status_of. rewrite Hw.
  change (λ c0, bool_decide (c_id c0 = c_id c)) with (by_id (c_id c)).
  by rewrite (find_by_id_NoDup c l).
Qed.

Section terminal.
Context `{Transports} `{RegexEngine}.

(** X7: ACCEPTED and REJECTED are final: in a store with unique, already
    issued identities, no operation of the controller changes the stored
    status of a conversation that is not PENDING. *)
Theorem settled_status_is_final (op : Operation) (w : World) (id : ObjectId)
    (s : ConversationStatus) :
  well_formed w →
  status_of id w = Some s →
  s ≠ PENDING →
  status_of id (run op w) = Some s.
Proof.
  intros (Hnd & _ & _ & Hissued & _) Hs Hsettled.
  destruct op as [p|p|p|m|p|params|p];
    try (rewrite <- Hs; apply status_of_conversations, run_conversations; by intros ?).
  unfold run.
  destruct (resolveConversation (s_userFrom params) (s_userTo params) w)
    as [[[conversation ce]|e] w1] eqn:Hres.
  - destruct (decide (id = conversation)) as [->|Hne].
    2: { by rewrite (send_status_other _ _ _ _ _ _ Hres Hne). }
    pose proof Hres as Hres'. rewrite resolveConversation_run in Hres'.
    destruct (find _ (conversations w)) as [c|] eqn:Hfind.
    + assert (Hid : c_id c = conversation).
      { repeat case_bool_decide; by inversion Hres'. }
      assert (Hst : c_status c = s).
      { apply find_elem_of in Hfind as [Hin _].
        rewrite <- Hid, (status_of_elem (conversations w) c) in Hs by done.
        by inversion Hs. }
      destruct (send_status_found params w c Hfind) as (c' & _ & _ & Hst' & Hstatus).
      { intros Hrej. rewrite Hrej in Hres'. simpl in Hres'. discriminate Hres'. }
      rewrite Hid in Hstatus. rewrite Hstatus, Hst', Hst.
      by rewrite (bool_decide_false (s = PENDING)).
    + (* a created conversation takes a fresh identity, which has no status yet *)
      exfalso. simpl in Hres'. injection Hres' as <- _ _.
      unfold status_of in Hs.
      destruct (find _ (conversations w)) as [d|] eqn:Hd; [|done].
      apply find_elem_of in Hd as [Hd Hdid]. apply bool_decide_eq_true in Hdid.
      rewrite Forall_forall in Hissued.
      specialize (Hissued (c_id d) (list_elem_of_fmap_2 c_id _ _ Hd)). simpl in Hissued.
      lia.
  - pose proof (send_store params w) as Hstore. rewrite Hres in Hstore.
    apply resolveConversation_thrown in Hres as (-> & _ & _).
    by rewrite Hstore.
Qed.
End terminal.

Ltac solve_well_formed :=
  unfold well_formed; simpl;
  repeat first
    [ split
    | apply NoDup_nil_2
    | apply NoDup_cons_2;
        [ let Hin := fresh in
          intros Hin;
          repeat (apply elem_of_cons in Hin as [Hin|Hin]; [discriminate Hin|]);
          by apply elem_of_nil in Hin
        | ]
    | apply Forall_nil_2
    | apply Forall_cons_2; [lia|] ].

(** A witness of X7: Bob cannot reopen the conversation he rejected. *)
Lemma settled_status_is_final_witness :
  status_of 7%N (@run quiet literal_regex (OpSend bob_to_ann) rejected_world) = Some REJECTED.
Proof.
  apply (@settled_status_is_final quiet literal_regex (OpSend bob_to_ann) rejected_world).
  - solve_well_formed.
  - reflexivity.
  - discriminate.
Defined.

Lemma replace_by_id_fresh (c : Conversation) (l : list Conversation) :
  Forall (λ d, c_id d ≠ c_id c) l → replace_by_id c l = l.
Proof.
  unfold replace_by_id. induction 1 as [|d l Hd _ IH]; [done|].
  rewrite fmap_cons, IH. by rewrite bool_decide_false.
Qed.

Lemma well_formed_fresh_conversation (w : World) :
  well_formed w → Forall (λ d, c_id d ≠ nextId w) (conversations w).
Proof.
  intros (_ & _ & _ & Hissued & _). rewrite Forall_fmap in Hissued.
  eapply Forall_impl; [exact Hissued|]. simpl. lia.
Qed.

Section first_message.
Context `{Transports}.

(** X8: the first [send] between two users (no conversation matches the
    pair, identities in the store already issued) appends one conversation -
    PENDING, initiated by the sender, addressed to the recipient, pointing
    at the new message - and one message - status SENT, from the sender to
    the recipient, in that conversation; this happens whether or not the
    fan-out succeeds, and a returning [send] returns that message. *)
Theorem send_first_message (params : SendParams) (w : World) :
  well_formed w →
  find (send_query (s_userFrom params) (s_userTo params)) (conversations w) = None →
  ∃ message,
    conversations (send params w).2 =
      conversations w ++
        [mkConversation (nextId w) (s_userFrom params) (s_userTo params) PENDING
           (Some (m_id message))] ∧
    messages (send params w).2 = messages w ++ [message] ∧
    m_id message = N.succ (nextId w) ∧
    m_conversation message = Some (nextId w) ∧
    m_userFrom message = Some (s_userFrom params) ∧
    m_userTo message = Some (s_userTo params) ∧
    m_status message = SENT ∧
    (∀ reply, (send params w).1 = Returned reply → data reply = message).
Proof.
  intros Hw Hfind.
  pose proof (resolveConversation_run (s_userFrom params) (s_userTo params) w) as Hres.
  rewrite Hfind in Hres. simpl in Hres.
  pose proof (send_store params w) as Hstore. rewrite Hres in Hstore.
  destruct Hstore as (message & effs & Hpersist & Hid & Hconv & Hw' & Hreply).
  destruct (persist_run params (nextId w)
              (mkConversation (nextId w) (s_userFrom params) (s_userTo params) PENDING None)
              (with_nextId N.succ
                 (with_conversations
                    (λ l, l ++ [mkConversation (nextId w) (s_userFrom params)
                                  (s_userTo params) PENDING None]) w)))
    as (message' & Hpersist' & _ & Huf & Hut & _ & Hs).
  rewrite Hpersist in Hpersist'. injection Hpersist' as <-.
  exists message. rewrite Hw'. simpl. repeat split; try done.
  unfold replace_by_id. rewrite fmap_app. simpl.
  rewrite bool_decide_true by done. f_equal.
  apply (replace_by_id_fresh
           (set_lastMessage (m_id message)
              (mkConversation (nextId w) (s_userFrom params) (s_userTo params) PENDING None))).
  by apply well_formed_fresh_conversation.
Qed.
End first_message.

(** A witness of X8: Ann's first message to Bob. *)
Lemma send_first_message_witness :
  ∃ message,
    conversations (@send quiet ann_to_bob fresh_world).2 =
      [mkConversation 100%N 1%N 2%N PENDING (Some (m_id message))] ∧
    messages (@send quiet ann_to_bob fresh_world).2 = [message] ∧
    m_id message = 101%N.
Proof.
  destruct (@send_first_message quiet ann_to_bob fresh_world) as (message & Hc & Hm & Hid & _).
  - solve_well_formed.
  - reflexivity.
  - exists message. by repeat split.
Defined.

(* ===================================================================== *)
(** ** The last-message pointer *)
(* ===================================================================== *)

Lemma lastMessage_linked_ext (w w' : World) :
  lastMessage_linked w →
  conversations w' = conversations w →
  (∀ m, m ∈ messages w →
        ∃ m', m' ∈ messages w' ∧ m_id m' = m_id m ∧ m_conversation m' = m_conversation m) →
  lastMessage_linked w'.
Proof.
  intros Hl Hc Hm c id Hin Hlast. rewrite Hc in Hin.
  destruct (Hl c id Hin Hlast) as (m & Hmin & Hmid & Hmc).
  destruct (Hm m Hmin) as (m' & Hm' & Hid' & Hc').
  exists m'. split; [done|]. split; congruence.
Qed.

Section pointer.
Context `{Transports} `{RegexEngine}.

(** X9: every operation except [deleteMessage] keeps the data model's
    pointer invariant: if each conversation's last message is a stored
    message of that conversation before the operation, it is so after it. *)
Theorem lastMessage_stays_linked (op : Operation) (w : World) :
  (∀ message, op ≠ OpDeleteMessage message) →
  lastMessage_linked w →
  lastMessage_linked (run op w).
Proof.
  intros Hop Hl. destruct op as [p|p|p|m|p|params|p]; unfold run.
  - destruct (addMessage_run p w) as (message & -> & _). simpl.
    apply (lastMessage_linked_ext w); [done|done|]. simpl.
    intros m Hm. exists m. split; [|done]. apply elem_of_app. by left.
  - by rewrite getMessages_store.
  - rewrite updateMessage_run.
    destruct (um_message p) as [id|]; [|done].
    destruct (list_find _ _) as [[i m0]|] eqn:Hfind; [|done]. simpl.
    apply list_find_Some in Hfind as (Hi & _ & _).
    apply (lastMessage_linked_ext w); [done|done|]. simpl.
    intros m Hm. apply list_elem_of_lookup in Hm as [j Hj].
    destruct (decide (j = i)) as [->|Hne].
    + eexists. split.
      * apply list_elem_of_lookup. exists i. apply list_lookup_insert_eq.
        by eapply lookup_lt_Some.
      * assert (m = m0) as -> by congruence.
        unfold set_message_status, set_text.
        by destruct (um_status p), (truthy_string (um_text p)).
    + exists m. split; [|done]. apply list_elem_of_lookup. exists j.
      by rewrite list_lookup_insert_ne.
  - by destruct (Hop m).
  - by rewrite getConversations_store.
  - pose proof (send_store params w) as Hstore.
    pose proof (resolveConversation_run (s_userFrom params) (s_userTo params) w) as Hrun.
    destruct (resolveConversation _ _ w) as [[[conversation ce]|e] w1] eqn:Hres.
    2: { rewrite Hstore. simpl. by apply resolveConversation_thrown in Hres as (-> & _). }
    destruct Hstore as (message & effs & _ & _ & Hconv & -> & _).
    apply resolveConversation_found in Hres as (_ & Hid & _ & _).
    assert (Hw1 : messages w1 = messages w ∧
                  ∀ c id, c ∈ conversations w1 → c_lastMessage c = Some id →
                          ∃ d, d ∈ conversations w ∧ c_id d = c_id c ∧
                               c_lastMessage d = Some id).
    { destruct (find _ (conversations w)) as [c0|] eqn:Hfind.
      - apply find_elem_of in Hfind as [Hc0 _].
        repeat case_bool_decide; simplify_eq; (split; [done|]); simpl;
          try (intros c id Hc Hlast; by exists c).
        intros c id Hc Hlast. unfold replace_by_id in Hc.
        apply list_elem_of_fmap in Hc as (d & -> & Hd).
        case_bool_decide; [|by exists d].
        exists c0. by repeat split.
      - simpl in Hrun. simplify_eq. split; [done|]. simpl.
        intros c id [Hc| ->%list_elem_of_singleton]%elem_of_app Hlast; [|done].
        by exists c. }
    destruct Hw1 as [Hmsgs Hconvs].
    intros c id Hc Hlast. simpl in Hc |- *. unfold replace_by_id in Hc.
    apply list_elem_of_fmap in Hc as (d & -> & Hd).
    case_bool_decide as Hsame.
    + simpl in Hlast. injection Hlast as <-. exists message.
      split; [apply elem_of_app; right; by apply list_elem_of_singleton|].
      split; [done|]. simpl. congruence.
    + destruct (Hconvs d id Hd Hlast) as (d0 & Hd0 & Hid0 & Hlast0).
      destruct (Hl d0 id Hd0 Hlast0) as (m & Hm & Hmid & Hmc).
      exists m. rewrite Hmsgs. split; [apply elem_of_app; by left|].
      split; [done|]. congruence.
  - rewrite readMessages_run.
    destruct (rm_userTo p); [|done]. case_bool_decide; [|done].
    destruct (rm_conversation p); [|done]. case_bool_decide; [|done]. simpl.
    apply (lastMessage_linked_ext w); [done|done|]. simpl.
    intros m Hm. eexists. split; [by apply list_elem_of_fmap_2|].
    by case_match.
Qed.
End pointer.

(** A witness of X9: Bob's answer keeps Ann and Bob's conversation linked. *)
Lemma lastMessage_stays_linked_witness :
  lastMessage_linked (@run quiet literal_regex (OpSend bob_to_ann) pending_world).
Proof.
  apply (@lastMessage_stays_linked quiet literal_regex (OpSend bob_to_ann) pending_world).
  - intros message. discriminate.
  - intros c id Hc Hlast. apply list_elem_of_singleton in Hc. subst c.
    injection Hlast as <-. eexists. split; [apply list_elem_of_singleton; reflexivity|].
    by split.
Defined.

Lemma deleteMessage_run (id : ObjectId) (w : World) :
  deleteMessage (Some id) w =
  match list_find (λ m, m_id m = id) (messages w) with
  | Some (i, m) => (Returned (mkReply true m), with_messages (delete i) w)
  | None => (Thrown (Error "Please enter valid message id!|||400"), w)
  end.
Proof.
  unfold deleteMessage, messagesModel_findByIdAndDelete. rewrite bind_run.
  by destruct (list_find _ _) as [[i m]|].
Qed.

Lemma deleteMessage_removed (id : ObjectId) (w : World) :
  NoDup (m_id <$> messages w) →
  Forall (λ m, m_id m ≠ id) (messages (deleteMessage (Some id) w).2).
Proof.
  intros Hnd. rewrite deleteMessage_run.
  destruct (list_find _ _) as [[i m]|] eqn:Hfind; simpl.
  - apply list_find_Some in Hfind as (Hi & Hm & _).
    apply Forall_forall. intros m' Hm' Hid.
    apply list_elem_of_lookup in Hm' as [j Hj]. rewrite list_lookup_delete in Hj.
    assert (i = (if decide (j < i)%nat then j else S j)).
    { eapply NoDup_lookup; [exact Hnd| |].
      - by rewrite list_lookup_fmap, Hi.
      - rewrite list_lookup_fmap, Hj. simpl. congruence. }
    case_decide; lia.
  - by apply list_find_None in Hfind.
Qed.

Section dangling.
Context `{RegexEngine}.

(** X10: [deleteMessage] does not repair the pointer: after the message a
    conversation points at is deleted (identities unique), the conversation
    is still stored with the same pointer but no stored message carries that
    identity, so the pointer invariant is broken and the conversation is in
    no row of any [getConversations] reply. *)
Theorem deleting_last_message_hides_conversation (params : GetConversationsParams)
    (w : World) (c : Conversation) (id : ObjectId) :
  NoDup (m_id <$> messages w) →
  NoDup (c_id <$> conversations w) →
  c ∈ conversations w →
  c_lastMessage c = Some id →
  c ∈ conversations (deleteMessage (Some id) w).2 ∧
  Forall (λ m, m_id m ≠ id) (messages (deleteMessage (Some id) w).2) ∧
  ¬ lastMessage_linked (deleteMessage (Some id) w).2 ∧
  ∀ reply,
    (getConversations params (deleteMessage (Some id) w).2).1 = Returned reply →
    Forall (λ v, cv_id v ≠ c_id c) (l_data reply).
Proof.
  intros Hm Hc Hin Hlast.
  pose proof (deleteMessage_removed id w Hm) as Hgone.
  pose proof (deleteMessage_conversations (Some id) w) as Hconv.
  split; [by rewrite Hconv|]. split; [done|]. split.
  - intros Hl. destruct (Hl c id) as (m & Hmin & Hmid & _); [by rewrite Hconv|done|].
    rewrite Forall_forall in Hgone. by destruct (Hgone m).
  - intros reply Hreply. apply getConversations_returned in Hreply as [-> _].
    apply Forall_take, Forall_drop, Forall_forall.
    intros v Hv Hid. apply conversation_rows_elem in Hv
      as (c' & m & u & Hc' & _ & Hmin & Hlast' & _ & _ & _ & ->).
    simpl in Hid. rewrite Hconv in Hc'.
    assert (c' = c) as -> by by apply (conversation_by_id_unique (conversations w)).
    rewrite Forall_forall in Hgone. destruct (Hgone m Hmin). congruence.
Qed.
End dangling.

(** A witness of X10: Ann's only message is deleted. *)
Lemma deleting_last_message_hides_conversation_witness :
  ¬ lastMessage_linked (deleteMessage (Some 8%N) pending_world).2.
Proof.
  destruct (@deleting_last_message_hides_conversation literal_regex
              (mkGetConversationsParams (Some 1%N) None None None) pending_world
              (mkConversation 7%N 1%N 2%N PENDING (Some 8%N)) 8%N)
    as (_ & _ & Hbroken & _); try done.
  - apply NoDup_singleton.
  - apply NoDup_singleton.
  - by apply list_elem_of_singleton.
Defined.

(* ===================================================================== *)
(** ** One conversation per pair *)
(* ===================================================================== *)

Lemma same_pair_send_query (c d : Conversation) :
  same_pair c d ↔ send_query (c_userFrom c) (c_userTo c) d = true.
Proof. rewrite send_query_spec. unfold same_pair. intuition congruence. Qed.

Lemma pair_unique_participants (l l' : list Conversation) :
  participants <$> l' = participants <$> l → pair_unique l → pair_unique l'.
Proof.
  intros Hp Hu i j c d Hi Hj Hsame.
  assert (Hi' : (participants <$> l) !! i = Some (participants c)).
  { by rewrite <- Hp, list_lookup_fmap, Hi. }
  assert (Hj' : (participants <$> l) !! j = Some (participants d)).
  { by rewrite <- Hp, list_lookup_fmap, Hj. }
  rewrite list_lookup_fmap in Hi', Hj'.
  destruct (l !! i) as [c0|] eqn:Hc0; [|done].
  destruct (l !! j) as [d0|] eqn:Hd0; [|done].
  simpl in Hi', Hj'. injection Hi' as Hcf Hct. injection Hj' as Hdf Hdt.
  apply (Hu i j c0 d0 Hc0 Hd0). unfold same_pair in *. intuition congruence.
Qed.

Lemma replace_by_id_participants (c0 c' : Conversation) (l : list Conversation) :
  NoDup (c_id <$> l) → c0 ∈ l → c_id c' = c_id c0 → participants c' = participants c0 →
  participants <$> replace_by_id c' l = participants <$> l.
Proof.
  intros Hnd Hc0 Hid Hp. unfold replace_by_id. rewrite <- list_fmap_compose.
  apply list_fmap_ext. intros i d Hd. simpl.
  case_bool_decide as Hsame; [|done].
  rewrite Hp. f_equal. symmetry.
  apply (conversation_by_id_unique l); [done| |done|congruence].
  by eapply list_elem_of_lookup_2.
Qed.

Lemma pair_unique_snoc (l : list Conversation) (c : Conversation) :
  pair_unique l →
  find (send_query (c_userFrom c) (c_userTo c)) l = None →
  pair_unique (l ++ [c]).
Proof.
  intros Hu Hnone i j d e Hi Hj Hsame.
  assert (Hno : ∀ k x, l !! k = Some x → ¬ same_pair c x).
  { intros k x Hk Hs%same_pair_send_query.
    eapply find_none in Hnone; [|apply list_elem_of_In; by eapply list_elem_of_lookup_2].
    congruence. }
  apply lookup_snoc_Some in Hi as [[Hil Hi]|[-> <-]];
    apply lookup_snoc_Some in Hj as [[Hjl Hj]|[-> <-]]; try done.
  - by apply (Hu i j d e).
  - exfalso. apply (Hno i d Hi). unfold same_pair in *. intuition congruence.
  - exfalso. by apply (Hno j e Hj).
Qed.

Section pairs.
Context `{Transports} `{RegexEngine}.

Lemma send_created (params : SendParams) (w : World) :
  well_formed w →
  find (send_query (s_userFrom params) (s_userTo params)) (conversations w) = None →
  ∃ message,
    conversations (send params w).2 =
      conversations w ++
        [mkConversation (nextId w) (s_userFrom params) (s_userTo params) PENDING
           (Some (m_id message))] ∧
    messages (send params w).2 = messages w ++ [message] ∧
    m_conversation message = Some (nextId w).
Proof.
  intros Hw Hfind.
  pose proof (resolveConversation_run (s_userFrom params) (s_userTo params) w) as Hres.
  rewrite Hfind in Hres. simpl in Hres.
  pose proof (send_store params w) as Hstore. rewrite Hres in Hstore.
  destruct Hstore as (message & effs & _ & _ & Hconv & Hw' & _).
  exists message. rewrite Hw'. simpl. repeat split; try done.
  unfold replace_by_id. rewrite fmap_app. simpl.
  rewrite bool_decide_true by done. f_equal.
  apply (replace_by_id_fresh
           (set_lastMessage (m_id message)
              (mkConversation (nextId w) (s_userFrom params) (s_userTo params) PENDING None))).
  by apply well_formed_fresh_conversation.
Qed.

(** What a [send] whose lookup finds a conversation does to the
    participants of the stored conversations: nothing. *)
Lemma send_found_participants (params : SendParams) (w : World) (c : Conversation) :
  NoDup (c_id <$> conversations w) →
  find (send_query (s_userFrom params) (s_userTo params)) (conversations w) = Some c →
  participants <$> conversations (send params w).2 = participants <$> conversations w.
Proof.
  intros Hnd Hfind.
  pose proof (send_store params w) as Hstore.
  pose proof (resolveConversation_run (s_userFrom params) (s_userTo params) w) as Hrun.
  rewrite Hfind in Hrun.
  apply find_elem_of in Hfind as [Hc _].
  destruct (resolveConversation _ _ w) as [[[conversation ce]|e] w1] eqn:Hres.
  2: { rewrite Hstore. simpl. by apply resolveConversation_thrown in Hres as (-> & _). }
  destruct Hstore as (message & effs & _ & _ & _ & -> & _). simpl.
  repeat case_bool_decide; simplify_eq; simpl.
  - rewrite (replace_by_id_participants (set_status ACCEPTED c)).
    + by apply (replace_by_id_participants c).
    + by rewrite replace_by_id_ids.
    + unfold replace_by_id. apply list_elem_of_fmap. exists c.
      by rewrite bool_decide_true.
    + done.
    + done.
  - by apply (replace_by_id_participants c).
  - by apply (replace_by_id_participants c).
Qed.

(** X11: the resolver keeps the data model's uniqueness invariant: in a
    store with unique, already issued identities that holds at most one
    conversation per unordered pair of users, every operation of the
    controller leaves at most one conversation per unordered pair. *)
Theorem pair_stays_unique (op : Operation) (w : World) :
  well_formed w →
  pair_unique (conversations w) →
  pair_unique (conversations (run op w)).
Proof.
  intros Hw Hu.
  destruct op as [p|p|p|m|p|params|p];
    try (rewrite run_conversations; [done|by intros ?]).
  unfold run.
  destruct (find (send_query (s_userFrom params) (s_userTo params)) (conversations w))
    as [c|] eqn:Hfind.
  - apply (pair_unique_participants (conversations w)); [|done].
    apply (send_found_participants params w c); [|done]. by destruct Hw.
  - destruct (send_created params w Hw Hfind) as (message & -> & _).
    by apply pair_unique_snoc.
Qed.
End pairs.

(** A witness of X11: Bob's answer does not add a second conversation. *)
Lemma pair_stays_unique_witness :
  pair_unique (conversations (@run quiet literal_regex (OpSend bob_to_ann) pending_world)).
Proof.
  apply (@pair_stays_unique quiet literal_regex (OpSend bob_to_ann) pending_world).
  - solve_well_formed.
  - intros i j c d Hi Hj _. by destruct i, j.
Defined.

(* ===================================================================== *)
(** ** More on the pagination of messages *)
(* ===================================================================== *)





Lemma stage_match_ext {D} (q1 q2 : Filter D) (docs : list D) :
  (∀ d, q1 d = q2 d) → stage_match q1 docs = stage_match q2 docs.
Proof.
  intros Hq. unfold stage_match. apply list_filter_iff. intros d. by rewrite Hq.
Qed.

(** X13: addressing [getMessages] by a pair is symmetric: without a
    conversation id, exchanging [user1] and [user2] gives the same outcome
    (the same page, counts, or error). *)
Theorem getMessages_pair_symmetric (params : GetMessagesParams) (w : World) :
  gm_conversation params = None →
  getMessages (swap_users params) w = getMessages params w.
Proof.
  intros Hc. rewrite !getMessages_run. unfold getMessages_query. simpl. rewrite Hc.
  destruct (gm_user1 params) as [user1|], (gm_user2 params) as [user2|]; try done.
  rewrite (stage_match_ext
             (q_or [q_and [q_eq m_userTo (Some user2); q_eq m_userFrom (Some user1)];
                    q_and [q_eq m_userFrom (Some user2); q_eq m_userTo (Some user1)]])
             (q_or [q_and [q_eq m_userTo (Some user1); q_eq m_userFrom (Some user2)];
                    q_and [q_eq m_userFrom (Some user1); q_eq m_userTo (Some user2)]])).
  - done.
  - intros m. unfold q_or, q_and, q_eq. simpl.
    repeat case_bool_decide; simpl; try done; by intuition.
Qed.

(** A witness of X13: the messages between Ann and Bob, asked either way. *)
Lemma getMessages_pair_symmetric_witness :
  getMessages (mkGetMessagesParams None None None (Some 2%N) (Some 1%N)) pending_world =
  getMessages (mkGetMessagesParams None None None (Some 1%N) (Some 2%N)) pending_world.
Proof.
  apply (getMessages_pair_symmetric
           (mkGetMessagesParams None None None (Some 1%N) (Some 2%N)) pending_world).
  reflexivity.
Defined.

Section defaults.
Context `{RegexEngine}.

End defaults.


(* ===================================================================== *)
(** ** The order of the listed conversations *)
(* ===================================================================== *)




Section order.
Context `{RegexEngine}.


End order.


(* ===================================================================== *)
(** ** Sending, then listing; deleting, then listing *)
(* ===================================================================== *)

Lemma resolveConversation_messages (userFrom userTo : ObjectId) (w : World) :
  messages (resolveConversation userFrom userTo w).2 = messages w.
Proof.
  rewrite resolveConversation_run.
  destruct (find _ (conversations w)); [|done]. by repeat case_bool_decide.
Qed.

Lemma stage_match_snoc {D} (query : Filter D) (docs : list D) (d : D) :
  query d = true → stage_match query (docs ++ [d]) = stage_match query docs ++ [d].
Proof.
  intros Hq. unfold stage_match. rewrite filter_app. f_equal.
  rewrite filter_cons_True by by rewrite Hq. done.
Qed.

Lemma getMessages_count (params : GetMessagesParams) (w : World) (query : Filter Message) :
  getMessages_query params = Some query →
  (0 ≤ default 0 (gm_page params))%Z → (0 ≤ default 0 (gm_limit params))%Z →
  ∃ reply, getMessages params w = (Returned reply, w) ∧
           l_totalCount reply = Z.of_nat (length (stage_match query (messages w))).
Proof.
  intros Hquery Hp Hl. rewrite getMessages_run, Hquery.
  destruct (listing_run (effective_page (gm_page params)) (effective_limit (gm_limit params))
              (project_message <$>
                 stage_sort_desc m_createdAt (stage_match query (messages w))))
    as (rows & -> & ->).
  { by apply effective_page_nonneg. }
  { by apply effective_limit_pos. }
  eexists. split; [reflexivity|]. simpl. rewrite length_fmap. f_equal.
  apply Permutation_length, stage_sort_desc_perm.
Qed.

Section send_then_list.
Context `{Transports}.

(** X16: a [send] that is not blocked adds exactly one message to its
    conversation, whether or not its fan-out then fails: listing the
    messages of the resolved conversation after the [send] counts one more
    than before it. *)
Theorem send_then_getMessages (params : SendParams) (listing : GetMessagesParams)
    (w w1 : World) (conversation : ObjectId) (conversationExists : Conversation) :
  resolveConversation (s_userFrom params) (s_userTo params) w
    = (Returned (conversation, conversationExists), w1) →
  gm_conversation listing = Some conversation →
  (0 ≤ default 0 (gm_page listing))%Z → (0 ≤ default 0 (gm_limit listing))%Z →
  ∃ before after,
    getMessages listing w = (Returned before, w) ∧
    getMessages listing (send params w).2 = (Returned after, (send params w).2) ∧
    l_totalCount after = (l_totalCount before + 1)%Z.
Proof.
  intros Hres Hc Hp Hl.
  assert (Hquery : getMessages_query listing = Some (q_eq m_conversation (Some conversation))).
  { unfold getMessages_query. by rewrite Hc. }
  destruct (getMessages_count listing w _ Hquery Hp Hl) as (before & Hb & Hbc).
  destruct (getMessages_count listing (send params w).2 _ Hquery Hp Hl) as (after & Ha & Hac).
  exists before, after. split; [done|]. split; [done|].
  rewrite Hac, Hbc.
  pose proof (send_store params w) as Hstore. rewrite Hres in Hstore.
  destruct Hstore as (message & effs & _ & _ & Hconv & -> & _). simpl.
  pose proof (resolveConversation_messages (s_userFrom params) (s_userTo params) w) as Hm.
  rewrite Hres in Hm. simpl in Hm. rewrite Hm.
  rewrite stage_match_snoc, length_app; [simpl; lia|].
  unfold q_eq. by rewrite bool_decide_true.
Qed.
End send_then_list.

(** A witness of X16: Bob's answer is the conversation's second message. *)
Lemma send_then_getMessages_witness :
  ∃ before after,
    getMessages (mkGetMessagesParams (Some 7%N) None None None None) pending_world
      = (Returned before, pending_world) ∧
    getMessages (mkGetMessagesParams (Some 7%N) None None None None)
      (@send quiet bob_to_ann pending_world).2
      = (Returned after, (@send quiet bob_to_ann pending_world).2) ∧
    l_totalCount after = (l_totalCount before + 1)%Z.
Proof.
  apply (@send_then_getMessages quiet bob_to_ann
           (mkGetMessagesParams (Some 7%N) None None None None) pending_world
           (resolveConversation 2%N 1%N pending_world).2 7%N
           (mkConversation 7%N 1%N 2%N ACCEPTED (Some 8%N)));
    [reflexivity | reflexivity | simpl; lia | simpl; lia].
Defined.

(** X17: deletion is final: once [deleteMessage] has returned a message
    (identities unique), deleting the same identity again fails with the
    invalid-id error and writes nothing, and no [getMessages] reply lists
    that identity any more. *)
Theorem deleteMessage_then (id : ObjectId) (w : World) (deleted : Reply Message) :
  NoDup (m_id <$> messages w) →
  (deleteMessage (Some id) w).1 = Returned deleted →
  deleteMessage (Some id) (deleteMessage (Some id) w).2 =
    (Thrown (Error "Please enter valid message id!|||400"), (deleteMessage (Some id) w).2) ∧
  ∀ listing reply,
    (getMessages listing (deleteMessage (Some id) w).2).1 = Returned reply →
    Forall (λ v, v_id v ≠ id) (l_data reply).
Proof.
  intros Hnd Hdel.
  pose proof (deleteMessage_removed id w Hnd) as Hgone.
  split.
  - rewrite (deleteMessage_run id (deleteMessage (Some id) w).2).
    destruct (list_find _ (messages (deleteMessage (Some id) w).2)) as [[i m]|] eqn:Hfind;
      [|done].
    apply list_find_Some in Hfind as (Hi & Hm & _).
    rewrite Forall_forall in Hgone. destruct (Hgone m); [|done].
    by eapply list_elem_of_lookup_2.
  - intros listing reply. rewrite getMessages_run.
    destruct (getMessages_query listing) as [query|]; [|done].
    destruct (paginate _ _ _) as [rows|e] eqn:Hp; [|done].
    simpl. intros [= <-]. rewrite (paginate_returned _ _ _ _ Hp). simpl.
    apply Forall_take, Forall_drop, Forall_fmap.
    rewrite stage_sort_desc_perm. unfold stage_match.
    apply Forall_forall. intros m [_ Hm]%list_elem_of_filter. simpl.
    rewrite Forall_forall in Hgone. by apply Hgone.
Qed.

(** A witness of X17: Ann's message is deleted twice. *)
Lemma deleteMessage_then_witness :
  deleteMessage (Some 8%N) (deleteMessage (Some 8%N) pending_world).2 =
    (Thrown (Error "Please enter valid message id!|||400"),
     (deleteMessage (Some 8%N) pending_world).2).
Proof.
  eapply (proj1 (deleteMessage_then 8%N pending_world _ _ eq_refl)).
  Unshelve. apply NoDup_singleton.
Defined.

(* ===================================================================== *)
(** ** What the fan-out of a returning [send] carried *)
(* ===================================================================== *)

Lemma resolveConversation_bystanders (userFrom userTo : ObjectId) (w : World) :
  users (resolveConversation userFrom userTo w).2 = users w ∧
  outbox (resolveConversation userFrom userTo w).2 = outbox w.
Proof.
  rewrite resolveConversation_run.
  destruct (find _ (conversations w)); [|done]. by repeat case_bool_decide.
Qed.

Section payload.
Context `{Transports}.

(** X18: when [send] returns, exactly three calls were handed to the
    collaborators, in this order: the real-time event, addressed to the
    recipient's identity and named ["newMessage_"] followed by the
    conversation identity, carrying the returned message; the notification
    record for the recipient, naming the message and the sender; and the
    push, to all the device tokens of the recipient's user record in their
    stored order (an empty list when there are none), titled "New Message",
    with the sender's display name - or the text "undefined" when none was
    given - in its body. *)
Theorem send_notifications (params : SendParams) (w : World) (reply : Reply Message) :
  (send params w).1 = Returned reply →
  ∃ conversation recipient,
    m_conversation (data reply) = Some conversation ∧
    recipient ∈ users w ∧ u_id recipient = s_userTo params ∧
    outbox (send params w).2 =
      outbox w ++
      [ Emitted (mkEmitArgs (toString (s_userTo params))
                   ("newMessage_" +:+ toString conversation) (data reply));
        NotificationAdded (mkNotificationObj (Some (s_userTo params)) (m_id (data reply))
                             (Some (s_userFrom params)) NEW_MESSAGE);
        Notified (mkNotifyArgs (token <$> u_fcms recipient) "New Message"
                    ("New message from " +:+ default "undefined" (s_username params))
                    NEW_MESSAGE) ].
Proof.
  rewrite send_steps, bind_run.
  pose proof (resolveConversation_bystanders (s_userFrom params) (s_userTo params) w)
    as [Husers Houtbox].
  destruct (resolveConversation _ _ w) as [[[conversation ce]|e] w1]; [|done].
  simpl in Husers, Houtbox.
  destruct (persist_run params conversation ce w1)
    as (message & Hrun & Hid & Huf & Hut & Hc & _).
  rewrite bind_run, Hrun, bind_run.
  rewrite (fanout_run _ _ (s_userTo params)) by done. simpl.
  destruct (emitEvent _); [done|].
  destruct (addNotification _); [done|].
  rewrite Husers.
  destruct (find _ (users w)) as [u|] eqn:Hu; [|done].
  destruct (notify _); [done|]. simpl. intros [= <-]. simpl.
  apply find_elem_of in Hu as [Hin Hid']. apply bool_decide_eq_true in Hid'.
  exists conversation, u. split; [done|]. split; [done|]. split; [congruence|].
  rewrite Houtbox. unfold emitArgs_of, notificationObj_of, notifyArgs_of, string_of.
  by rewrite Hc, Hut, Huf.
Qed.
End payload.

(** A witness of X18: Bob's answer reaches Ann's device. *)
Lemma send_notifications_witness :
  ∃ recipient,
    recipient = ann ∧
    channel_of <$> outbox (@send quiet bob_to_ann pending_world).2 = [RealTime; Durable; Push].
Proof.
  destruct (@send_notifications quiet bob_to_ann pending_world
              (mkReply true (mkMessage 100%N (Some 2%N) (Some 1%N) (Some 7%N) (Some "hello")
                               None SENT 9%Z)) eq_refl)
    as (conversation & recipient & Hc & Hin & Hid & Hout).
  exists recipient.
  assert (recipient = ann) as ->.
  { simpl in Hin. apply elem_of_cons in Hin as [->|Hin]; [done|].
    apply list_elem_of_singleton in Hin. subst. discriminate Hid. }
  split; [done|]. by rewrite Hout.
Defined.

(* ===================================================================== *)
(** ** The reset-password form *)
(* ===================================================================== *)

Section reset_password.
Import ResetPassword.

Lemma marked_invalid_intro (i : Input) :
  marked_invalid i (classList_add "border-red-500" (classList_remove "border-blue-300" i)).
Proof.
  unfold marked_invalid, classList_add, classList_remove. simpl.
  split; [done|]. split; [|split].
  - apply elem_of_union. left. by apply elem_of_singleton.
  - intros [Hin|Hin]%elem_of_union.
    + by apply elem_of_singleton in Hin.
    + apply elem_of_difference in Hin as [_ Hin]. apply Hin. by apply elem_of_singleton.
  - intros t Hred Hblue. rewrite elem_of_union, elem_of_difference, !elem_of_singleton.
    tauto.
Qed.

Lemma marked_valid_intro (i : Input) :
  marked_valid i (classList_remove "border-red-500" (classList_add "border-blue-300" i)).
Proof.
  unfold marked_valid, classList_add, classList_remove. simpl.
  split; [done|]. split; [|split].
  - apply elem_of_difference. split.
    + apply elem_of_union. left. by apply elem_of_singleton.
    + by intros Hin%elem_of_singleton.
  - intros [_ Hin]%elem_of_difference. apply Hin. by apply elem_of_singleton.
  - intros t Hred Hblue. rewrite elem_of_difference, elem_of_union, !elem_of_singleton.
    tauto.
Qed.

(** X19: a submit sends a request exactly when the new password has at
    least 6 code units and equals the confirmation, and then sends one: a
    PUT of JSON to [/api/v1/users/password/email] at the page's origin whose
    body carries the typed password and [null] for both [user] and [token] -
    the handler reads them from a [URLSearchParams] it creates empty, not
    from the page's address. Otherwise nothing is sent, no alert is shown
    and the button is untouched. The form's default submission is always
    prevented. *)
Theorem handleSubmit_request (fetch : Request → Settled) (p : Page) :
  let newPassword := value (newPasswordInput p) in
  let confirmPassword := value (confirmPasswordInput p) in
  defaultPrevented (handleSubmit fetch p) = true ∧
  ((6 ≤ length newPassword)%nat ∧ newPassword = confirmPassword →
   requests (handleSubmit fetch p) =
     requests p ++ [password_request (origin p) newPassword]) ∧
  ((length newPassword < 6)%nat ∨ newPassword ≠ confirmPassword →
   requests (handleSubmit fetch p) = requests p ∧
   alerts (handleSubmit fetch p) = alerts p ∧
   buttonElem (handleSubmit fetch p) = buttonElem p).
Proof.
  intros newPassword confirmPassword. unfold handleSubmit. simpl.
  fold newPassword confirmPassword.
  split; [|split].
  - repeat case_bool_decide; simpl; try done. by destruct (fetch _).
  - intros [Hlen Heq]. rewrite bool_decide_false by lia.
    rewrite bool_decide_false by (by intros ?). by destruct (fetch _).
  - intros Hbad. case_bool_decide; [done|].
    case_bool_decide; [done|]. destruct Hbad; [lia|done].
Qed.

(** X20: the feedback of a submit. A new password shorter than 6 code
    units marks the new-password field invalid (red border on, blue border
    off) and leaves the confirmation field as it is, whatever it holds; a
    long enough password that differs from the confirmation marks the
    new-password field valid and the confirmation field invalid; a long
    enough, confirmed password marks both valid. No other class token and
    no field value changes. *)
Theorem handleSubmit_feedback (fetch : Request → Settled) (p : Page) :
  let newPassword := value (newPasswordInput p) in
  let confirmPassword := value (confirmPasswordInput p) in
  ((length newPassword < 6)%nat →
   marked_invalid (newPasswordInput p) (newPasswordInput (handleSubmit fetch p)) ∧
   confirmPasswordInput (handleSubmit fetch p) = confirmPasswordInput p) ∧
  ((6 ≤ length newPassword)%nat → newPassword ≠ confirmPassword →
   marked_valid (newPasswordInput p) (newPasswordInput (handleSubmit fetch p)) ∧
   marked_invalid (confirmPasswordInput p) (confirmPasswordInput (handleSubmit fetch p))) ∧
  ((6 ≤ length newPassword)%nat → newPassword = confirmPassword →
   marked_valid (newPasswordInput p) (newPasswordInput (handleSubmit fetch p)) ∧
   marked_valid (confirmPasswordInput p) (confirmPasswordInput (handleSubmit fetch p))).
Proof.
  intros newPassword confirmPassword. unfold handleSubmit. simpl.
  fold newPassword confirmPassword.
  split; [|split].
  - intros Hlen. rewrite bool_decide_true by done. simpl.
    split; [apply marked_invalid_intro|done].
  - intros Hlen Hne. rewrite bool_decide_false by lia. rewrite bool_decide_true by done.
    simpl. split; [apply marked_valid_intro|apply marked_invalid_intro].
  - intros Hlen Heq. rewrite bool_decide_false by lia.
    rewrite bool_decide_false by (by intros ?).
    destruct (fetch _); simpl; (split; apply marked_valid_intro).
Qed.

(** X21: once the request is sent the button is disabled and reads
    "Submitting..." - nothing enables it again - and exactly one alert is
    shown: "Password updated successfully." when the server answers,
    whatever the HTTP status of the answer, or the error's message when the
    request itself fails. *)
Theorem handleSubmit_settles (fetch : Request → Settled) (p : Page) :
  let newPassword := value (newPasswordInput p) in
  (6 ≤ length newPassword)%nat →
  newPassword = value (confirmPasswordInput p) →
  buttonElem (handleSubmit fetch p) = mkButton true "Submitting..." ∧
  alerts (handleSubmit fetch p) =
    alerts p ++
      [match fetch (password_request (origin p) newPassword) with
       | Resolved status => "Password updated successfully."
       | Rejected message => message
       end].
Proof.
  intros newPassword Hlen Heq. unfold handleSubmit. simpl. fold newPassword.
  rewrite bool_decide_false by lia.
  rewrite bool_decide_false by (by intros ?).
  unfold password_request. simpl. by destruct (fetch _).
Qed.
End reset_password.

(** A witness of X19: a confirmed seven-character password. *)
Lemma handleSubmit_request_witness :
  ResetPassword.requests
    (ResetPassword.handleSubmit (λ _, ResetPassword.Resolved 404) (served_page secret1 secret1))
  = [password_request "https://example.org" secret1].
Proof.
  destruct (handleSubmit_request (λ _, ResetPassword.Resolved 404) (served_page secret1 secret1))
    as (_ & Hsent & _).
  apply Hsent. split; [simpl; lia|reflexivity].
Defined.

(** A witness of X20: a five-character password. *)
Lemma handleSubmit_feedback_witness :
  marked_invalid (ResetPassword.newPasswordInput (served_page (take 5 secret1) secret1))
    (ResetPassword.newPasswordInput
       (ResetPassword.handleSubmit (λ _, ResetPassword.Resolved 200)
          (served_page (take 5 secret1) secret1))).
Proof.
  destruct (handleSubmit_feedback (λ _, ResetPassword.Resolved 200)
              (served_page (take 5 secret1) secret1)) as (Hshort & _).
  apply Hshort. simpl. lia.
Defined.

(** A witness of X21: the server answers 404 and the page reports success. *)
Lemma handleSubmit_settles_witness :
  ResetPassword.alerts
    (ResetPassword.handleSubmit (λ _, ResetPassword.Resolved 404) (served_page secret1 secret1))
  = ["Password updated successfully."].
Proof.
  apply (handleSubmit_settles (λ _, ResetPassword.Resolved 404) (served_page secret1 secret1));
    [simpl; lia | reflexivity].
Defined.
